(** * deel.lip.utils: registry of custom objects, model loaders,
      fan-in/fan-out analysis and the empirical Lipschitz estimator.

    A shallow embedding of [src/deel/lip/utils.py].  Python integers are
    [Z], numpy integers are [Z] with the int64 wrap-around written out,
    strings are [string], dictionaries are [gmap string _] living in a
    store of objects (the order of their keys is not kept), numpy/Keras
    floating-point scalars are read in exact arithmetic over [R]. *)

From Stdlib Require Import ZArith List String Reals Lra Lia.
From stdpp Require Import gmap strings list fin_maps.

(** ** Values shared by the three parts of the module *)

(** A floating-point scalar read in exact arithmetic: [Some r] is the real
    number [r], [None] is a result that is no real number (NaN or an
    infinity). *)
Definition float : Type := option R.

(** Python exceptions that the module can let escape. *)
Inductive exn : Type :=
| ValueError (msg : string)
| IndexError (msg : string)
| StopIteration
| AttributeError (msg : string)
| FrameworkError (msg : string).

(** Outcome of a Python call: a returned value or a raised exception. *)
Inductive result (A : Type) : Type :=
| Ok (a : A)
| Raise (e : exn).
Arguments Ok {A} a.
Arguments Raise {A} e.

Definition result_bind {A B} (r : result A) (k : A -> result B) : result B :=
  match r with
  | Ok a => k a
  | Raise e => Raise e
  end.

(** Python code that reads and writes a state of type [S] and may raise:
    a raised exception keeps the state reached so far. *)
Definition M (S A : Type) : Type := S -> result A * S.

#[global] Instance M_ret {S} : MRet (M S) := fun A a s => (Ok a, s).

#[global] Instance M_bind {S} : MBind (M S) := fun A B k m s =>
  match m s with
  | (Ok a, s') => k a s'
  | (Raise e, s') => (Raise e, s')
  end.

Definition raise {S A} (e : exn) : M S A := fun s => (Raise e, s).
Definition get_state {S} : M S S := fun s => (Ok s, s).
Definition put_state {S} (s : S) : M S unit := fun _ => (Ok tt, s).

(** A call whose outcome is already known: returns or raises accordingly. *)
Definition outcome {S A} (r : result A) : M S A := fun s => (r, s).

(** ** Fan-in / fan-out of a weight shape *)

Module Fans.

Open Scope Z_scope.

(** Numbers returned by [_compute_fans]: Python/numpy integers or numpy
    floats. *)
Inductive number : Type :=
| PyInt (z : Z)
| PyFloat (f : float).

(** [len(shape)] *)
Definition len {A} (l : list A) : Z := Z.of_nat (length l).

(** [shape[i]] with Python's negative indices; out of range raises
    [IndexError]. *)
Definition getitem (shape : list Z) (i : Z) : result Z :=
  let j := if i <? 0 then i + len shape else i in
  if (j <? 0) || (len shape <=? j) then
    Raise (IndexError "tuple index out of range")
  else
    match nth_error shape (Z.to_nat j) with
    | Some v => Ok v
    | None => Raise (IndexError "tuple index out of range")
    end.

(** Position denoted by a slice bound: negative bounds count from the end
    and every bound is clamped to [0, len]. *)
Definition slice_bound {A} (l : list A) (i : Z) : nat :=
  Z.to_nat (Z.max 0 (Z.min (len l) (if i <? 0 then i + len l else i))).

(** [shape[i:]] *)
Definition slice_from {A} (l : list A) (i : Z) : list A :=
  skipn (slice_bound l i) l.

(** [shape[:i]] *)
Definition slice_to {A} (l : list A) (i : Z) : list A :=
  firstn (slice_bound l i) l.

(** numpy computes on the dimensions as 64-bit integers: a result outside
    [[-2^63, 2^63)] wraps around silently. *)
Definition wrap64 (z : Z) : Z := (z + 2 ^ 63) mod 2 ^ 64 - 2 ^ 63.

(** The integers that an int64 holds. *)
Definition fits_int64 (z : Z) : Prop := - 2 ^ 63 <= z < 2 ^ 63.

(** [a * b] when one of the two is a numpy int64. *)
Definition int64_mul (a b : Z) : Z := wrap64 (a * b).

(** [np.prod] of a tuple of dimensions: the int64 product of its entries
    (1 on the empty tuple).  The dimensions are taken to be int64 values:
    numpy switches to another element type for larger Python integers,
    which is not modelled. *)
Definition np_prod (l : list Z) : Z := fold_left int64_mul l 1.

(** [np.sqrt] of an int64, read in exact arithmetic: NaN below zero. *)
Definition np_sqrt (z : Z) : float :=
  if z <? 0 then None else Some (sqrt (IZR z)).

(** [len(shape) in {3, 4, 5}] *)
Definition in_3_4_5 (n : Z) : bool := (n =? 3) || (n =? 4) || (n =? 5).

(** [_compute_fans(shape, data_format)]: fan-in and fan-out of a weight
    tensor of the given shape, by rank. *)
Definition _compute_fans (shape : list Z) (data_format : string)
  : result (number * number) :=
  if len shape =? 2 then
    result_bind (getitem shape 0) (fun fan_in =>
    result_bind (getitem shape 1) (fun fan_out =>
    Ok (PyInt fan_in, PyInt fan_out)))
  else if in_3_4_5 (len shape) then
    if String.eqb data_format "channels_first" then
      let receptive_field_size := np_prod (slice_from shape 2) in
      result_bind (getitem shape 1) (fun s1 =>
      result_bind (getitem shape 0) (fun s0 =>
      Ok (PyInt (int64_mul s1 receptive_field_size),
          PyInt (int64_mul s0 receptive_field_size))))
    else if String.eqb data_format "channels_last" then
      let receptive_field_size := np_prod (slice_to shape (-2)) in
      result_bind (getitem shape (-2)) (fun s2 =>
      result_bind (getitem shape (-1)) (fun s1 =>
      Ok (PyInt (int64_mul s2 receptive_field_size),
          PyInt (int64_mul s1 receptive_field_size))))
    else
      Raise (ValueError ("Invalid data_format: " ++ data_format))
  else
    Ok (PyFloat (np_sqrt (np_prod shape)), PyFloat (np_sqrt (np_prod shape))).

(** The two layouts the helper recognises, and their spelling. *)
Inductive layout : Type := channels_first | channels_last.

Definition layout_name (l : layout) : string :=
  match l with
  | channels_first => "channels_first"
  | channels_last => "channels_last"
  end.

(** Product of the entries of a list, right to left. *)
Fixpoint product (l : list Z) : Z :=
  match l with
  | [] => 1
  | d :: ds => d * product ds
  end.

(** The fans as the specification words them, by rank and layout, with
    positions counted from the front of the shape. *)
Definition fans_by_rank (shape : list Z) (l : layout) : number * number :=
  let dim (i : nat) := nth i shape 0 in
  match length shape with
  | 2%nat => (PyInt (dim 0%nat), PyInt (dim 1%nat))
  | 3%nat | 4%nat | 5%nat =>
      match l with
      | channels_first =>
          let receptive := product (skipn 2 shape) in
          (PyInt (dim 1%nat * receptive), PyInt (dim 0%nat * receptive))
      | channels_last =>
          let k := (length shape - 2)%nat in
          let receptive := product (firstn k shape) in
          (PyInt (dim k * receptive), PyInt (dim (S k) * receptive))
      end
  | _ =>
      let root := if product shape <? 0 then None
                  else Some (sqrt (IZR (product shape))) in
      (PyFloat root, PyFloat root)
  end.

(** The integers the by-rank formula names stay within int64: nothing to
    ask on rank 2, where the result is the two Python integers themselves;
    on ranks 3 to 5 the dimensions and both fans; on any other rank the
    dimensions and their product. *)
Definition formula_fits (shape : list Z) (l : layout) : Prop :=
  match length shape with
  | 2%nat => True
  | 3%nat | 4%nat | 5%nat =>
      Forall fits_int64 shape
      /\ match fans_by_rank shape l with
         | (PyInt fan_in, PyInt fan_out) =>
             fits_int64 fan_in /\ fits_int64 fan_out
         | _ => True
         end
  | _ => Forall fits_int64 shape /\ fits_int64 (product shape)
  end.

End Fans.

(** ** The registry of custom objects and the model loaders *)

Module Registry.

(** A function or class object: it carries its [__name__]; [ident] tells
    apart distinct objects of the same name. *)
Record callable : Type := { __name__ : string; ident : positive }.

#[global] Instance callable_eq_dec : EqDecision callable.
Proof. solve_decision. Defined.

(** What [deel_export] can be handed: an object with a [__name__] (a
    function or a class), or one without (a [functools.partial] object, an
    instance of a class that defines [__call__]); the latter are callable
    all the same. *)
Inductive pyobject : Type :=
| Named (f : callable)
| Nameless (ident : positive).

Coercion Named : callable >-> pyobject.

(** A Python [dict] from names to callables, and references to such
    objects. *)
Abbreviation dict := (gmap string callable).
Abbreviation loc := positive.

(** The framework's deserialisation routines.  Each receives the dict
    object it is handed and may modify it in place: it returns the model
    (or raises) together with the contents it leaves in that dict. *)
Class Keras : Type := {
  Model : Type;
  keras_load_model : string -> dict -> bool -> result Model * dict;
  keras_model_from_json : string -> dict -> result Model * dict;
  keras_model_from_yaml : string -> dict -> result Model * dict;
}.

(** What the framework was called with (the dict as it was at the call). *)
Inductive keras_call : Type :=
| Call_load_model (filepath : string) (custom_objects : dict) (compile : bool)
| Call_model_from_json (json_string : string) (custom_objects : dict)
| Call_model_from_yaml (yaml_string : string) (custom_objects : dict).

(** The interpreter state seen by this module: the dict objects, the
    module-level binding [CUSTOM_OBJECTS], and the calls made to the
    framework, latest first. *)
Record state : Type := {
  heap : gmap loc dict;
  CUSTOM_OBJECTS : loc;
  keras_calls : list keras_call;
}.

Definition set_heap (h : gmap loc dict) (s : state) : state :=
  {| heap := h; CUSTOM_OBJECTS := CUSTOM_OBJECTS s;
     keras_calls := keras_calls s |}.

Definition log_call (c : keras_call) (s : state) : state :=
  {| heap := heap s; CUSTOM_OBJECTS := CUSTOM_OBJECTS s;
     keras_calls := c :: keras_calls s |}.

(** [CUSTOM_OBJECTS = dict()] at import time. *)
Definition initial_state : state :=
  {| heap := {[ 1%positive := ∅ ]}; CUSTOM_OBJECTS := 1%positive;
     keras_calls := [] |}.

(** Contents of the dict object at [l].  Python cannot reach an object
    that does not exist; the store reports it as an error. *)
Definition dict_read (l : loc) : M state dict := fun s =>
  match heap s !! l with
  | Some d => (Ok d, s)
  | None => (Raise (FrameworkError "no such object"), s)
  end.

Definition dict_write (l : loc) (d : dict) : M state unit := fun s =>
  (Ok tt, set_heap (<[l := d]> (heap s)) s).

(** [d.copy()]: a new dict object with the same entries. *)
Definition dict_copy (l : loc) : M state loc :=
  d ← dict_read l;
  s ← get_state;
  let l' := fresh (dom (heap s)) in
  dict_write l' d;;
  mret l'.

(** [d.update(other)]: entries of [other] replace those of [d]. *)
Definition dict_update (l : loc) (other : dict) : M state unit :=
  d ← dict_read l;
  dict_write l (other ∪ d).

(** [d[k] = v] *)
Definition dict_setitem (l : loc) (k : string) (v : callable) : M state unit :=
  d ← dict_read l;
  dict_write l (<[k := v]> d).

(** The global name [CUSTOM_OBJECTS]. *)
Definition global_CUSTOM_OBJECTS : M state loc := fun s => (Ok (CUSTOM_OBJECTS s), s).

(** [deel_export(f)]: [CUSTOM_OBJECTS[f.__name__] = f; return f].  The
    subscript [f.__name__] is evaluated before the store, so an object
    without that attribute raises [AttributeError] and nothing is
    written. *)
Definition deel_export (f : pyobject) : M state pyobject :=
  registry ← global_CUSTOM_OBJECTS;
  match f with
  | Named g => dict_setitem registry (__name__ g) g
  | Nameless _ => raise (AttributeError "object has no attribute '__name__'")
  end;;
  mret f.

Section Loaders.
Context `{Keras}.

(** A call into the framework with the dict object at [l]. *)
Definition call_keras (l : loc) (record : dict -> keras_call)
    (routine : dict -> result Model * dict) : M state Model :=
  d ← dict_read l;
  s ← get_state;
  put_state (log_call (record d) s);;
  dict_write l (snd (routine d));;
  outcome (fst (routine d)).

(** The three loaders: copy the registry, update the copy with the
    caller's mapping unless it is [None], and hand the copy to the
    framework's routine. *)
Definition load_model (filepath : string) (custom_objects : option dict)
    (compile : bool) : M state Model :=
  registry ← global_CUSTOM_OBJECTS;
  deel_custom_objects ← dict_copy registry;
  match custom_objects with
  | Some c => dict_update deel_custom_objects c
  | None => mret tt
  end;;
  call_keras deel_custom_objects
    (fun d => Call_load_model filepath d compile)
    (fun d => keras_load_model filepath d compile).

Definition model_from_json (json_string : string)
    (custom_objects : option dict) : M state Model :=
  registry ← global_CUSTOM_OBJECTS;
  deel_custom_objects ← dict_copy registry;
  match custom_objects with
  | Some c => dict_update deel_custom_objects c
  | None => mret tt
  end;;
  call_keras deel_custom_objects
    (fun d => Call_model_from_json json_string d)
    (fun d => keras_model_from_json json_string d).

Definition model_from_yaml (yaml_string : string)
    (custom_objects : option dict) : M state Model :=
  registry ← global_CUSTOM_OBJECTS;
  deel_custom_objects ← dict_copy registry;
  match custom_objects with
  | Some c => dict_update deel_custom_objects c
  | None => mret tt
  end;;
  call_keras deel_custom_objects
    (fun d => Call_model_from_yaml yaml_string d)
    (fun d => keras_model_from_yaml yaml_string d).

(** The three loaders under one name. *)
Inductive loader : Type :=
| Load_model (filepath : string) (compile : bool)
| Model_from_json (json_string : string)
| Model_from_yaml (yaml_string : string).

Definition run_loader (ld : loader) (custom_objects : option dict)
    : M state Model :=
  match ld with
  | Load_model filepath compile => load_model filepath custom_objects compile
  | Model_from_json json_string => model_from_json json_string custom_objects
  | Model_from_yaml yaml_string => model_from_yaml yaml_string custom_objects
  end.

(** The framework call a loader makes when it passes the dict [d], and
    what the framework answers. *)
Definition framework_call (ld : loader) (d : dict) : keras_call :=
  match ld with
  | Load_model filepath compile => Call_load_model filepath d compile
  | Model_from_json json_string => Call_model_from_json json_string d
  | Model_from_yaml yaml_string => Call_model_from_yaml yaml_string d
  end.

Definition framework_answer (ld : loader) (d : dict) : result Model :=
  match ld with
  | Load_model filepath compile => fst (keras_load_model filepath d compile)
  | Model_from_json json_string => fst (keras_model_from_json json_string d)
  | Model_from_yaml yaml_string => fst (keras_model_from_yaml yaml_string d)
  end.

(** What the framework leaves in the dict it was handed. *)
Definition framework_leftover (ld : loader) (d : dict) : dict :=
  match ld with
  | Load_model filepath compile => snd (keras_load_model filepath d compile)
  | Model_from_json json_string => snd (keras_model_from_json json_string d)
  | Model_from_yaml yaml_string => snd (keras_model_from_yaml yaml_string d)
  end.

(** The operations of the module on the interpreter state. *)
Inductive op : Type :=
| Op_deel_export (f : pyobject)
| Op_load (ld : loader) (custom_objects : option dict).

Definition run_op (o : op) (s : state) : state :=
  match o with
  | Op_deel_export f => snd (deel_export f s)
  | Op_load ld custom_objects => snd (run_loader ld custom_objects s)
  end.

(** States the process can be in: after import, and after any sequence of
    calls into the module. *)
Inductive reachable : state -> Prop :=
| reachable_initial : reachable initial_state
| reachable_step (o : op) (s : state) :
    reachable s -> reachable (run_op o s).

End Loaders.

(** The dict the name [CUSTOM_OBJECTS] is bound to. *)
Definition registry (s : state) : option dict := heap s !! CUSTOM_OBJECTS s.

(** [e] is [r] overlaid with the caller's mapping [c]: on every name the
    caller's entry if there is one, the one of [r] otherwise. *)
Definition is_overlay (r : dict) (c : option dict) (e : dict) : Prop :=
  forall n : string,
    e !! n = match c with
             | Some overrides =>
                 match overrides !! n with
                 | Some v => Some v
                 | None => r !! n
                 end
             | None => r !! n
             end.

(** The contents of [deel_custom_objects] once a loader has copied the
    registry [r] and applied the caller's mapping [c]. *)
Definition effective (r : dict) (c : option dict) : dict :=
  match c with
  | Some overrides => overrides ∪ r
  | None => r
  end.

(** The caller's mapping has no entry for [n]. *)
Definition no_override (c : option dict) (n : string) : Prop :=
  match c with
  | Some overrides => overrides !! n = None
  | None => True
  end.

(** A framework that builds a trivial model and leaves the dict it is
    handed as it is; used to run the loaders on concrete inputs. *)
Definition echo_keras : Keras :=
  {| Model := unit;
     keras_load_model := fun _ d _ => (Ok tt, d);
     keras_model_from_json := fun _ d => (Ok tt, d);
     keras_model_from_yaml := fun _ d => (Ok tt, d) |}.

(** A framework that wipes the dict it is handed. *)
Definition wiping_keras : Keras :=
  {| Model := unit;
     keras_load_model := fun _ _ _ => (Ok tt, ∅);
     keras_model_from_json := fun _ _ => (Ok tt, ∅);
     keras_model_from_yaml := fun _ _ => (Ok tt, ∅) |}.

(** Objects and states to run the registry on: two layers exported one
    after the other, and a caller's replacement for the first. *)
Definition SpectralDense : callable :=
  {| __name__ := "SpectralDense"; ident := 1 |}.
Definition FrobeniusDense : callable :=
  {| __name__ := "FrobeniusDense"; ident := 2 |}.
Definition SpectralDense_patched : callable :=
  {| __name__ := "SpectralDense"; ident := 3 |}.

Definition two_exports : state :=
  snd (deel_export FrobeniusDense (snd (deel_export SpectralDense initial_state))).

Definition two_exports_registry : dict :=
  <["FrobeniusDense" := FrobeniusDense]> (<["SpectralDense" := SpectralDense]> ∅).

End Registry.

(** ** The empirical Lipschitz estimator *)

Module Lipschitz.

Open Scope R_scope.

(** A batch tensor: the list of its samples, each sample being the
    row-major list of its entries, so that a sum over all non-batch axes
    is the sum of a sample's entries.  A batch of shape [(n,)] is a batch
    of one-entry samples. *)
Definition tensor : Type := list (list R).

(** [x.shape], as the batch size (its length) and the size of each
    sample. *)
Definition shape (x : tensor) : list nat := map length x.

(** Entry-wise arithmetic on tensors of one shape. *)
Definition tensor_add (a b : tensor) : tensor := zip_with (zip_with Rplus) a b.
Definition tensor_sub (a b : tensor) : tensor := zip_with (zip_with Rminus) a b.

(** [K.square] *)
Definition K_square (a : tensor) : tensor := map (map (fun v => v * v)) a.

(** [K.sum(a, axis=range(1, len(a.shape)))]: one sum per sample. *)
Definition K_sum (a : tensor) : list R := map (fun s => fold_right Rplus 0 s) a.

(** Floating-point division: dividing by zero gives no real number. *)
Definition float_div (a b : R) : float :=
  if Req_dec_T b 0 then None else Some (a / b).

(** [ndfx / ndx] on two vectors of one length.  (The two vectors of the
    estimator have one length when the model returns one output per
    sample; numpy's broadcasting of vectors of different lengths is not
    modelled.) *)
Definition vector_div (a b : list R) : list float := zip_with float_div a b.

(** [K.max]: the largest entry; no real number on an empty vector or when
    an entry is none. *)
Fixpoint K_max (l : list float) : float :=
  match l with
  | [] => None
  | [a] => a
  | a :: rest =>
      match a, K_max rest with
      | Some u, Some v => Some (Rmax u v)
      | _, _ => None
      end
  end.

(** [K.sqrt]: NaN below zero. *)
Definition K_sqrt (f : float) : float :=
  match f with
  | Some r => if Rlt_dec r 0 then None else Some (sqrt r)
  | None => None
  end.

(** The backend's random generator.  [K_random_uniform n shape minval
    maxval seed] is the tensor produced by the [n]-th draw of the process.
    Its contract is the framework's: a tensor of the requested shape whose
    entries lie in [[minval, maxval)]. *)
Class Backend : Type := {
  K_random_uniform : nat -> list nat -> R -> R -> option Z -> tensor;
  random_uniform_shape : forall n sh lo hi seed,
    shape (K_random_uniform n sh lo hi seed) = sh;
  random_uniform_range : forall n sh lo hi seed,
    lo < hi ->
    Forall (Forall (fun v => lo <= v < hi)) (K_random_uniform n sh lo hi seed);
}.

(** The draw in which every entry comes out as [minval]; used to run the
    estimator on concrete inputs. *)
Definition lowest_draw (sh : list nat) (minval : R) : tensor :=
  map (fun size => repeat minval size) sh.

(** What the estimator can observe and change: the batches the generator
    has yet to yield (each a tuple of arrays), the number of random draws
    made so far, the inputs [model.predict] was run on (latest first) and
    the values printed (latest first). *)
Record world : Type := {
  generator : list (list tensor);
  rng_draws : nat;
  predict_calls : list tensor;
  stdout : list float;
}.

(** A world in which nothing has happened yet and the generator will yield
    the given batches. *)
Definition fresh_world (batches : list (list tensor)) : world :=
  {| generator := batches; rng_draws := 0%nat; predict_calls := []; stdout := [] |}.

(** The world in which the generator has [rest] left to yield. *)
Definition set_generator (rest : list (list tensor)) (w : world) : world :=
  {| generator := rest; rng_draws := rng_draws w;
     predict_calls := predict_calls w; stdout := stdout w |}.

(** [generator.send(None)]: the next batch, or [StopIteration]. *)
Definition generator_send : M world (list tensor) := fun w =>
  match generator w with
  | [] => (Raise StopIteration, w)
  | batch :: rest => (Ok batch, set_generator rest w)
  end.

(** [x, y, _ = batch]: the tuple must have exactly three components. *)
Definition unpack3 (batch : list tensor) : M world (tensor * tensor * tensor) :=
  match batch with
  | [] => raise (ValueError "not enough values to unpack (expected 3, got 0)")
  | [_] => raise (ValueError "not enough values to unpack (expected 3, got 1)")
  | [_; _] => raise (ValueError "not enough values to unpack (expected 3, got 2)")
  | [x; y; z] => mret (x, y, z)
  | _ => raise (ValueError "too many values to unpack (expected 3)")
  end.

(** [model.predict(x)] for a model treated as a function on batches: the
    forward pass returns and has no effect of its own; the call is
    recorded.  A forward pass that raises is not modelled. *)
Definition model_predict (model : tensor -> tensor) (x : tensor) : M world tensor :=
  fun w =>
    (Ok (model x), {| generator := generator w; rng_draws := rng_draws w;
                      predict_calls := x :: predict_calls w;
                      stdout := stdout w |}).

(** [print("lip cst: %.3f" % lip_cst)]: the entry added to [stdout] is
    the value the line is formatted from, not the text of the line. *)
Definition print_lip_cst (lip_cst : float) : M world unit := fun w =>
  (Ok tt, {| generator := generator w; rng_draws := rng_draws w;
             predict_calls := predict_calls w;
             stdout := lip_cst :: stdout w |}).

Section Estimator.
Context `{Backend}.

(** [K.random_uniform(shape=..., minval=..., maxval=..., seed=...)] *)
Definition random_uniform (sh : list nat) (minval maxval : R)
    (seed : option Z) : M world tensor := fun w =>
  (Ok (K_random_uniform (rng_draws w) sh minval maxval seed),
   {| generator := generator w; rng_draws := S (rng_draws w);
      predict_calls := predict_calls w; stdout := stdout w |}).

(** [evaluate_lip_const(model, x, eps, seed)]: two forward passes, on [x]
    and on a noisy copy of it, and the greatest ratio of squared output
    distance to squared input distance. *)
Definition evaluate_lip_const (model : tensor -> tensor) (x : tensor)
    (eps : R) (seed : option Z) : M world float :=
  y_pred ← model_predict model x;
  noise ← random_uniform (shape x) (eps * 0.25) eps seed;
  let x_var := tensor_add x noise in
  y_pred_var ← model_predict model x_var;
  let dx := tensor_sub x x_var in
  let dfx := tensor_sub y_pred y_pred_var in
  let ndx := K_sum (K_square dx) in
  let ndfx := K_sum (K_square dfx) in
  let lip_cst := K_sqrt (K_max (vector_div ndfx ndx)) in
  print_lip_cst lip_cst;;
  mret lip_cst.

(** [evaluate_lip_const_gen(model, generator, eps, seed)]:
    [x, y, _ = generator.send(None)], then the direct form on [x]. *)
Definition evaluate_lip_const_gen (model : tensor -> tensor)
    (eps : R) (seed : option Z) : M world float :=
  batch ← generator_send;
  '(x, y, _) ← unpack3 batch;
  evaluate_lip_const model x eps seed.

End Estimator.

(** Squared Euclidean distance of two samples. *)
Definition sq_dist (a b : list R) : R :=
  fold_right Rplus 0 (zip_with (fun u v => (u - v) * (u - v)) a b).

(** The ratio [ndfx / ndx] of sample [i], for a model [f], a batch [x]
    and its perturbed copy [x_var]. *)
Definition sample_ratio (f : tensor -> tensor) (x x_var : tensor) (i : nat) : R :=
  sq_dist (nth i (f x) []) (nth i (f x_var) [])
  / sq_dist (nth i x []) (nth i x_var []).


(** Two models to run the estimator on: entry-wise squaring, and the sum
    of a sample's entries (one output per sample). *)
Definition square_model (a : tensor) : tensor := map (map (fun v => v * v)) a.
Definition sum_model (a : tensor) : tensor :=
  map (fun sample => [fold_right Rplus 0 sample]) a.

End Lipschitz.

(** * Properties *)

(** ** Fan-in / fan-out *)

Section FansFacts.
Import Fans.

Lemma wrap64_fits (z : Z) : fits_int64 z -> wrap64 z = z.
Proof.
  unfold fits_int64, wrap64. intros Hz. rewrite Z.mod_small by lia. lia.
Qed.

(** Wrapping an intermediate product does not change the wrapped result. *)
Lemma wrap64_mul_l (a b : Z) : wrap64 (wrap64 a * b) = wrap64 (a * b).
Proof.
  unfold wrap64. f_equal.
  rewrite (Z.mod_eq (a + 2 ^ 63) (2 ^ 64)) by lia.
  set (q := (a + 2 ^ 63) / 2 ^ 64).
  replace ((a + 2 ^ 63 - 2 ^ 64 * q - 2 ^ 63) * b + 2 ^ 63)
    with (a * b + 2 ^ 63 + (- q * b) * 2 ^ 64) by ring.
  apply Z_mod_plus_full.
Qed.

Lemma int64_mul_wrap_r (a b : Z) : int64_mul a (wrap64 b) = wrap64 (a * b).
Proof.
  unfold int64_mul. rewrite (Z.mul_comm a (wrap64 b)), wrap64_mul_l.
  f_equal. apply Z.mul_comm.
Qed.

Lemma fold_int64_mul (l : list Z) (a : Z) :
  fold_left int64_mul l (wrap64 a) = wrap64 (a * product l).
Proof.
  revert a. induction l as [|d ds IH]; intros a; cbn [fold_left product].
  - rewrite Z.mul_1_r. reflexivity.
  - unfold int64_mul at 2. rewrite wrap64_mul_l, IH. f_equal. ring.
Qed.

(** [np.prod] is the exact product, wrapped once. *)
Lemma np_prod_product (l : list Z) : np_prod l = wrap64 (product l).
Proof.
  pose proof (fold_int64_mul l 1) as Hfold.
  rewrite (wrap64_fits 1) in Hfold by (unfold fits_int64; lia).
  rewrite Z.mul_1_l in Hfold. exact Hfold.
Qed.

Lemma np_sqrt_product (l : list Z) :
  fits_int64 (product l) ->
  np_sqrt (np_prod l)
  = if product l <? 0 then None else Some (sqrt (IZR (product l))).
Proof.
  intros Hfit. rewrite np_prod_product, wrap64_fits by exact Hfit.
  reflexivity.
Qed.

(** Outside ranks 2 to 5 the helper takes the fallback branch, whatever
    the layout string. *)
Lemma compute_fans_fallback (shape : list Z) (data_format : string) :
  (length shape < 2 \/ 5 < length shape)%nat ->
  _compute_fans shape data_format
  = Ok (PyFloat (np_sqrt (np_prod shape)), PyFloat (np_sqrt (np_prod shape))).
Proof.
  intros Hlen. unfold _compute_fans, in_3_4_5, len.
  destruct (Z.eqb_spec (Z.of_nat (length shape)) 2); [lia|].
  destruct (Z.eqb_spec (Z.of_nat (length shape)) 3); [lia|].
  destruct (Z.eqb_spec (Z.of_nat (length shape)) 4); [lia|].
  destruct (Z.eqb_spec (Z.of_nat (length shape)) 5); [lia|].
  reflexivity.
Qed.

(** The worked examples of the specification. *)
Example compute_fans_dense :
  _compute_fans [4; 8] "channels_last" = Ok (PyInt 4, PyInt 8).
Proof. reflexivity. Qed.

Example compute_fans_conv_last :
  _compute_fans [3; 3; 4; 8] "channels_last" = Ok (PyInt 36, PyInt 72).
Proof. reflexivity. Qed.

Example compute_fans_conv_first :
  _compute_fans [3; 3; 4; 8] "channels_first" = Ok (PyInt 96, PyInt 96).
Proof. reflexivity. Qed.

(** The convolution branch with the channels in front: output channels,
    input channels, then one to three spatial dimensions. *)
Lemma compute_fans_channels_first (o i : Z) (spatial : list Z) :
  (1 <= length spatial <= 3)%nat ->
  _compute_fans (o :: i :: spatial) "channels_first"
  = Ok (PyInt (wrap64 (i * product spatial)),
        PyInt (wrap64 (o * product spatial))).
Proof.
  intros Hlen. rewrite <- !int64_mul_wrap_r, <- np_prod_product.
  destruct spatial as [|a [|b [|c [|d rest]]]]; simpl in Hlen; try lia;
    reflexivity.
Qed.

(** The convolution branch with the channels at the back: one to three
    spatial dimensions, then input channels, then output channels. *)
Lemma compute_fans_channels_last (spatial : list Z) (i o : Z) :
  (1 <= length spatial <= 3)%nat ->
  _compute_fans (spatial ++ [i; o]) "channels_last"
  = Ok (PyInt (wrap64 (i * product spatial)),
        PyInt (wrap64 (o * product spatial))).
Proof.
  intros Hlen. rewrite <- !int64_mul_wrap_r, <- np_prod_product.
  destruct spatial as [|a [|b [|c [|d rest]]]]; simpl in Hlen; try lia;
    reflexivity.
Qed.

(** C2 (as stated) fails where a product leaves int64: on the shape
    [(2^32, 2^32, 1, 1)] read with the channels at the back, the product
    of the spatial dimensions wraps to 0 and so do both fans, where the
    formula names [2^64]. *)
Lemma compute_fans_by_rank_wraps :
  _compute_fans [2 ^ 32; 2 ^ 32; 1; 1] (layout_name channels_last)
  = Ok (PyInt 0, PyInt 0)
  /\ fans_by_rank [2 ^ 32; 2 ^ 32; 1; 1] channels_last
     = (PyInt (2 ^ 64), PyInt (2 ^ 64))
  /\ _compute_fans [2 ^ 32; 2 ^ 32; 1; 1] (layout_name channels_last)
     <> Ok (fans_by_rank [2 ^ 32; 2 ^ 32; 1; 1] channels_last).
Proof.
  assert (Hcode : _compute_fans [2 ^ 32; 2 ^ 32; 1; 1] (layout_name channels_last)
                  = Ok (PyInt 0, PyInt 0)) by (vm_compute; reflexivity).
  assert (Hformula : fans_by_rank [2 ^ 32; 2 ^ 32; 1; 1] channels_last
                     = (PyInt (2 ^ 64), PyInt (2 ^ 64)))
    by (vm_compute; reflexivity).
  split; [exact Hcode|]. split; [exact Hformula|].
  rewrite Hcode, Hformula. intros Heq. inversion Heq.
Qed.

Ltac conv_rank_case Hfit :=
  destruct Hfit as (_ & Hin & Hout);
  rewrite !wrap64_fits by (exact Hin || exact Hout); reflexivity.

(** C2 (amended): for every shape and each of the two recognised layouts,
    as long as the integers the formula names stay within int64 (on ranks
    3 to 5 the dimensions and both fans, on ranks other than 2 to 5 the
    dimensions and their product), [_compute_fans] returns the fans the
    specification gives by rank: [(shape[0], shape[1])] for two
    dimensions; for three to five dimensions the channel dimensions times
    the product of the spatial ones, read from the front for
    [channels_first] and from the back for [channels_last]; and the
    square root of the product of all dimensions, read in exact
    arithmetic, twice, for every other rank. *)
Theorem compute_fans_by_rank (shape : list Z) (l : layout) :
  formula_fits shape l ->
  _compute_fans shape (layout_name l) = Ok (fans_by_rank shape l).
Proof.
  intros Hfit. unfold formula_fits in Hfit.
  destruct shape as [|a [|b [|c [|d [|e [|f rest]]]]]];
    cbn [length] in Hfit.
  - rewrite compute_fans_fallback by (simpl; lia).
    rewrite np_sqrt_product by apply Hfit. reflexivity.
  - rewrite compute_fans_fallback by (simpl; lia).
    rewrite np_sqrt_product by apply Hfit. reflexivity.
  - destruct l; reflexivity.
  - destruct l; cbn [layout_name].
    + rewrite (compute_fans_channels_first a b [c]) by (simpl; lia).
      conv_rank_case Hfit.
    + refine (eq_trans (compute_fans_channels_last [a] b c _) _); [simpl; lia|].
      conv_rank_case Hfit.
  - destruct l; cbn [layout_name].
    + rewrite (compute_fans_channels_first a b [c; d]) by (simpl; lia).
      conv_rank_case Hfit.
    + refine (eq_trans (compute_fans_channels_last [a; b] c d _) _); [simpl; lia|].
      conv_rank_case Hfit.
  - destruct l; cbn [layout_name].
    + rewrite (compute_fans_channels_first a b [c; d; e]) by (simpl; lia).
      conv_rank_case Hfit.
    + refine (eq_trans (compute_fans_channels_last [a; b; c] d e _) _); [simpl; lia|].
      conv_rank_case Hfit.
  - rewrite compute_fans_fallback by (simpl; lia).
    rewrite np_sqrt_product by apply Hfit. reflexivity.
Qed.

Lemma compute_fans_by_rank_witness :
  _compute_fans [3; 5; 16; 32] (layout_name channels_last)
  = Ok (fans_by_rank [3; 5; 16; 32] channels_last).
Proof.
  apply (compute_fans_by_rank [3; 5; 16; 32] channels_last).
  unfold formula_fits, fits_int64. cbn [length].
  split; [repeat constructor; lia|]. simpl. lia.
Defined.

(** On ranks 3 to 5 with a layout string that is neither of the two
    recognised ones, the helper reaches its [raise]. *)
Lemma compute_fans_conv_unrecognised (shape : list Z) (data_format : string) :
  (3 <= length shape <= 5)%nat ->
  data_format <> "channels_first" ->
  data_format <> "channels_last" ->
  _compute_fans shape data_format
  = Raise (ValueError ("Invalid data_format: " ++ data_format)).
Proof.
  intros Hlen Hfirst Hlast. unfold _compute_fans, in_3_4_5, len.
  destruct (Z.eqb_spec (Z.of_nat (length shape)) 2); [lia|].
  destruct (String.eqb_spec data_format "channels_first"); [contradiction|].
  destruct (String.eqb_spec data_format "channels_last"); [contradiction|].
  destruct (Z.eqb_spec (Z.of_nat (length shape)) 3); [reflexivity|].
  destruct (Z.eqb_spec (Z.of_nat (length shape)) 4); [reflexivity|].
  destruct (Z.eqb_spec (Z.of_nat (length shape)) 5); [reflexivity|].
  lia.
Qed.

(** On rank 2 the layout string is never looked at. *)
Lemma compute_fans_rank2 (shape : list Z) (data_format : string) :
  length shape = 2%nat ->
  _compute_fans shape data_format
  = Ok (PyInt (nth 0 shape 0), PyInt (nth 1 shape 0)).
Proof.
  intros Hlen. destruct shape as [|a [|b [|c rest]]]; try discriminate.
  reflexivity.
Qed.

(** C6: for every shape of length 3, 4 or 5 and every layout string other
    than [channels_first] and [channels_last], [_compute_fans] raises
    [ValueError] with a message that ends in the offending string, and
    returns no result. *)
Theorem compute_fans_invalid_layout (shape : list Z) (data_format : string) :
  (3 <= length shape <= 5)%nat ->
  data_format <> "channels_first" ->
  data_format <> "channels_last" ->
  _compute_fans shape data_format
  = Raise (ValueError ("Invalid data_format: " ++ data_format))
  /\ forall fans, _compute_fans shape data_format <> Ok fans.
Proof.
  intros Hlen Hfirst Hlast.
  rewrite compute_fans_conv_unrecognised by assumption.
  split; [reflexivity | discriminate].
Qed.

Lemma compute_fans_invalid_layout_witness :
  _compute_fans [3; 3; 4; 8] "invalid-layout"
  = Raise (ValueError "Invalid data_format: invalid-layout")
  /\ forall fans, _compute_fans [3; 3; 4; 8] "invalid-layout" <> Ok fans.
Proof.
  apply (compute_fans_invalid_layout [3; 3; 4; 8] "invalid-layout").
  - simpl. lia.
  - discriminate.
  - discriminate.
Defined.

(** C10: for a 2-element shape and any layout string whatsoever,
    [_compute_fans] returns [(shape[0], shape[1])]; outside ranks 3 to 5
    the result does not depend on the layout string, and an exception can
    only come out on a shape of length 3, 4 or 5. *)
Theorem compute_fans_layout_only_for_conv (shape : list Z) (data_format : string) :
  (length shape = 2%nat ->
   _compute_fans shape data_format
   = Ok (PyInt (nth 0 shape 0), PyInt (nth 1 shape 0)))
  /\ (~ (3 <= length shape <= 5)%nat ->
      forall other : string,
        _compute_fans shape other = _compute_fans shape data_format)
  /\ (forall e, _compute_fans shape data_format = Raise e ->
      (3 <= length shape <= 5)%nat).
Proof.
  split; [apply compute_fans_rank2|]. split.
  - intros Hlen other.
    destruct (Nat.eq_dec (length shape) 2%nat) as [H2|H2].
    + rewrite !compute_fans_rank2 by assumption. reflexivity.
    + rewrite !compute_fans_fallback by lia. reflexivity.
  - intros e He.
    destruct (Nat.eq_dec (length shape) 2%nat) as [H2|H2].
    + rewrite compute_fans_rank2 in He by assumption. discriminate.
    + destruct (le_lt_dec 3%nat (length shape)) as [H3|H3];
        [destruct (le_lt_dec (length shape) 5%nat) as [H5|H5]|].
      * lia.
      * rewrite compute_fans_fallback in He by lia. discriminate.
      * rewrite compute_fans_fallback in He by lia. discriminate.
Qed.

Lemma compute_fans_layout_only_for_conv_witness :
  _compute_fans [4; 8] "invalid-layout" = Ok (PyInt 4, PyInt 8).
Proof.
  apply (proj1 (compute_fans_layout_only_for_conv [4; 8] "invalid-layout")).
  reflexivity.
Defined.

End FansFacts.

(** ** Registry and loaders *)

Section RegistryFacts.
Import Registry.
Context `{Keras}.

Lemma deel_export_run (f : callable) (s : state) (r : dict) :
  registry s = Some r ->
  deel_export f s
  = (Ok (Named f), set_heap (<[CUSTOM_OBJECTS s := <[__name__ f := f]> r]> (heap s)) s).
Proof.
  unfold registry. intros Hr.
  unfold deel_export, global_CUSTOM_OBJECTS, dict_setitem, dict_read, dict_write.
  unfold mbind, M_bind, mret, M_ret. rewrite Hr. reflexivity.
Qed.

(** An object without a [__name__] makes [deel_export] raise before it
    writes anything. *)
Lemma deel_export_nameless_run (i : positive) (s : state) :
  deel_export (Nameless i) s
  = (Raise (AttributeError "object has no attribute '__name__'"), s).
Proof. reflexivity. Qed.

Lemma run_loader_run (ld : loader) (c : option dict) (s : state) (r : dict) :
  registry s = Some r ->
  run_loader ld c s
  = (framework_answer ld (effective r c),
     {| heap := <[fresh (dom (heap s)) := framework_leftover ld (effective r c)]> (heap s);
        CUSTOM_OBJECTS := CUSTOM_OBJECTS s;
        keras_calls := framework_call ld (effective r c) :: keras_calls s |}).
Proof.
  unfold registry. intros Hr.
  destruct ld, c; simpl;
  unfold load_model, model_from_json, model_from_yaml, global_CUSTOM_OBJECTS, dict_copy, dict_update, call_keras,
    dict_read, dict_write, get_state, put_state, outcome;
  unfold mbind, M_bind, mret, M_ret; rewrite Hr;
  repeat (simpl; rewrite ?lookup_insert_eq);
  unfold set_heap, log_call; simpl; rewrite ?insert_insert_eq; reflexivity.
Qed.

Lemma fresh_not_registry (s : state) (r : dict) :
  registry s = Some r -> fresh (dom (heap s)) <> CUSTOM_OBJECTS s.
Proof.
  unfold registry. intros Hr Heq.
  apply (is_fresh (dom (heap s))). rewrite Heq.
  apply elem_of_dom. eauto.
Qed.

Lemma effective_overlay (r : dict) (c : option dict) :
  is_overlay r c (effective r c).
Proof.
  intros n. destruct c as [overrides|]; simpl; [|reflexivity].
  rewrite lookup_union. destruct (overrides !! n), (r !! n); reflexivity.
Qed.

Lemma registry_after_loader (ld : loader) (c : option dict) (s : state) (r : dict) :
  registry s = Some r ->
  registry (snd (run_loader ld c s)) = Some r.
Proof.
  intros Hr. rewrite (run_loader_run ld c s r Hr). unfold registry. simpl.
  rewrite lookup_insert_ne by (apply (fresh_not_registry s r Hr)).
  exact Hr.
Qed.

Lemma registry_after_export (f : callable) (s : state) (r : dict) :
  registry s = Some r ->
  registry (snd (deel_export f s)) = Some (<[__name__ f := f]> r).
Proof.
  intros Hr. rewrite (deel_export_run f s r Hr). unfold registry. simpl.
  apply lookup_insert_eq.
Qed.

Lemma reachable_has_registry (s : state) :
  reachable s -> is_Some (registry s).
Proof.
  induction 1 as [|o s Hs [r Hr]].
  - eexists. reflexivity.
  - destruct o as [[f|i]|ld c]; simpl.
    + rewrite (registry_after_export f s r Hr). eauto.
    + eauto.
    + rewrite (registry_after_loader ld c s r Hr). eauto.
Qed.

(** C3: each of the three loaders hands the framework a dict that is the
    registry overlaid with the caller's mapping (the caller's entry on
    every name it defines, the registry's entry on every other name), and
    returns what the framework answers; the dict handed over is a copy:
    it is a dict object that did not exist before the call, and the
    registry holds the same entries after the call as before, whatever
    the caller's mapping was and whatever the framework did to the dict
    it received; in particular, right after [deel_export f], a loader
    called without an override for the name of [f] hands the framework
    [f] under that name. *)
Theorem loaders_pass_registry_overlaid
    (ld : loader) (c : option dict) (s : state) (r : dict) :
  registry s = Some r ->
  exists e : dict,
    is_overlay r c e
    /\ keras_calls (snd (run_loader ld c s)) = framework_call ld e :: keras_calls s
    /\ fst (run_loader ld c s) = framework_answer ld e
    /\ (exists l : loc,
          heap s !! l = None
          /\ l <> CUSTOM_OBJECTS s
          /\ heap (snd (run_loader ld c s)) !! l = Some (framework_leftover ld e))
    /\ registry (snd (run_loader ld c s)) = Some r
    /\ forall f : callable,
         no_override c (__name__ f) ->
         exists e' : dict,
           keras_calls (snd (run_loader ld c (snd (deel_export f s))))
           = framework_call ld e' :: keras_calls s
           /\ e' !! __name__ f = Some f.
Proof.
  intros Hr. exists (effective r c).
  pose proof (registry_after_loader ld c s r Hr) as Hkept.
  rewrite (run_loader_run ld c s r Hr) in *. simpl.
  split; [apply effective_overlay|]. split; [reflexivity|].
  split; [reflexivity|].
  split.
  { exists (fresh (dom (heap s))).
    split; [apply not_elem_of_dom, is_fresh|].
    split; [apply (fresh_not_registry s r Hr) | apply lookup_insert_eq]. }
  split; [exact Hkept|].
  intros f Hno. exists (effective (<[__name__ f := f]> r) c).
  rewrite (run_loader_run ld c _ _ (registry_after_export f s r Hr)).
  rewrite (deel_export_run f s r Hr). simpl. split; [reflexivity|].
  rewrite (effective_overlay (<[__name__ f := f]> r) c (__name__ f)).
  destruct c as [overrides|]; simpl in Hno.
  - rewrite Hno. apply lookup_insert_eq.
  - apply lookup_insert_eq.
Qed.

(** C7 (as stated) fails: a callable without a [__name__], such as a
    [functools.partial] object, makes [deel_export] raise
    [AttributeError]; it is not returned and the registry stays empty. *)
Lemma deel_export_nameless_raises :
  fst (deel_export (Nameless 1) initial_state)
  = Raise (AttributeError "object has no attribute '__name__'")
  /\ fst (deel_export (Nameless 1) initial_state) <> Ok (Nameless 1)
  /\ registry (snd (deel_export (Nameless 1) initial_state)) = Some ∅.
Proof.
  split; [reflexivity|]. split; [discriminate | reflexivity].
Qed.

(** C7 (amended): for an object [f] that has a [__name__] (a function or
    a class), [deel_export f] returns [f] itself, does not raise, and
    leaves the registry with [f] under the name of [f] and every other
    entry as it was; exporting a second such object [g] of the same name
    afterwards makes the registry answer [g] for that name.  An object
    without a [__name__] makes [deel_export] raise [AttributeError] and
    leaves the whole state as it was. *)
Theorem deel_export_registers (f g : callable) (s : state) (r : dict) :
  registry s = Some r ->
  fst (deel_export f s) = Ok (Named f)
  /\ (forall i : positive,
        exists msg : string,
          deel_export (Nameless i) s = (Raise (AttributeError msg), s))
  /\ (exists r1 : dict,
        registry (snd (deel_export f s)) = Some r1
        /\ r1 !! __name__ f = Some f
        /\ forall n : string, n <> __name__ f -> r1 !! n = r !! n)
  /\ (__name__ g = __name__ f ->
      fst (deel_export g (snd (deel_export f s))) = Ok (Named g)
      /\ exists r2 : dict,
           registry (snd (deel_export g (snd (deel_export f s)))) = Some r2
           /\ r2 !! __name__ f = Some g).
Proof.
  intros Hr. pose proof (registry_after_export f s r Hr) as Hr1.
  split; [rewrite (deel_export_run f s r Hr); reflexivity|].
  split; [intros i; eexists; apply deel_export_nameless_run|]. split.
  - exists (<[__name__ f := f]> r). split; [exact Hr1|].
    split; [apply lookup_insert_eq|].
    intros n Hn. apply lookup_insert_ne. congruence.
  - intros Hname.
    split; [rewrite (deel_export_run g _ _ Hr1); reflexivity|].
    exists (<[__name__ g := g]> (<[__name__ f := f]> r)).
    split; [apply (registry_after_export g _ _ Hr1)|].
    rewrite Hname. apply lookup_insert_eq.
Qed.

(** C4: the registry is the empty dict after import; from every state the
    process can reach, each operation of the module leaves the name
    [CUSTOM_OBJECTS] bound to the same dict object and keeps every name
    the registry had; each loader call leaves the registry's contents
    exactly as they were, whatever the caller passes; and an entry only
    changes through [deel_export], which sets the entry of the exported
    object's name. *)
Theorem registry_only_grows_by_registration :
  registry initial_state = Some ∅
  /\ forall s : state, reachable s -> forall o : op,
       exists r r' : dict,
         registry s = Some r
         /\ registry (run_op o s) = Some r'
         /\ CUSTOM_OBJECTS (run_op o s) = CUSTOM_OBJECTS s
         /\ dom r ⊆ dom r'
         /\ (forall ld c, o = Op_load ld c -> r' = r)
         /\ (forall n : string, r' !! n <> r !! n ->
             exists f : callable,
               o = Op_deel_export f /\ __name__ f = n /\ r' !! n = Some f).
Proof.
  split; [reflexivity|].
  intros s Hs o. destruct (reachable_has_registry s Hs) as [r Hr].
  destruct o as [[f|i]|ld c]; simpl.
  - exists r, (<[__name__ f := f]> r).
    split; [exact Hr|]. split; [apply (registry_after_export f s r Hr)|].
    split; [rewrite (deel_export_run f s r Hr); reflexivity|].
    split; [rewrite dom_insert_L; set_solver|].
    split; [discriminate|].
    intros n Hn. exists f. split; [reflexivity|].
    destruct (decide (__name__ f = n)) as [->|Hne].
    + split; [reflexivity | apply lookup_insert_eq].
    + rewrite lookup_insert_ne in Hn by exact Hne. contradiction.
  - exists r, r.
    split; [exact Hr|]. split; [exact Hr|]. split; [reflexivity|].
    split; [set_solver|]. split; [discriminate|].
    intros n Hn. contradiction.
  - exists r, r.
    split; [exact Hr|]. split; [apply (registry_after_loader ld c s r Hr)|].
    split; [rewrite (run_loader_run ld c s r Hr); reflexivity|].
    split; [set_solver|]. split; [reflexivity|].
    intros n Hn. contradiction.
Qed.

End RegistryFacts.

Import Registry.

Lemma two_exports_has_registry : registry two_exports = Some two_exports_registry.
Proof. reflexivity. Qed.

Lemma loaders_pass_registry_overlaid_witness :
  exists e : dict,
    e !! "SpectralDense" = Some SpectralDense_patched
    /\ e !! "FrobeniusDense" = Some FrobeniusDense
    /\ keras_calls
         (snd (@run_loader wiping_keras (Load_model "model.h5" true)
                 (Some {[ "SpectralDense" := SpectralDense_patched ]})
                 two_exports))
       = [Call_load_model "model.h5" e true]
    /\ registry
         (snd (@run_loader wiping_keras (Load_model "model.h5" true)
                 (Some {[ "SpectralDense" := SpectralDense_patched ]})
                 two_exports))
       = Some two_exports_registry.
Proof.
  destruct (@loaders_pass_registry_overlaid wiping_keras
              (Load_model "model.h5" true)
              (Some {[ "SpectralDense" := SpectralDense_patched ]})
              two_exports two_exports_registry two_exports_has_registry)
    as (e & Hoverlay & Hcalls & _ & _ & Hkept & _).
  exists e.
  split; [rewrite (Hoverlay "SpectralDense"); reflexivity|].
  split; [rewrite (Hoverlay "FrobeniusDense"); reflexivity|].
  split; [exact Hcalls | exact Hkept].
Defined.

Lemma deel_export_registers_witness :
  fst (deel_export SpectralDense two_exports) = Ok (Named SpectralDense)
  /\ exists r2 : dict,
       registry (snd (deel_export SpectralDense_patched
                        (snd (deel_export SpectralDense two_exports))))
       = Some r2
       /\ r2 !! "SpectralDense" = Some SpectralDense_patched.
Proof.
  destruct (deel_export_registers SpectralDense SpectralDense_patched
              two_exports two_exports_registry two_exports_has_registry)
    as (Hret & _ & _ & Hagain).
  split; [exact Hret|].
  destruct (Hagain eq_refl) as (_ & r2 & Hr2 & Hlookup).
  exists r2. split; [exact Hr2 | exact Hlookup].
Defined.

Lemma registry_only_grows_by_registration_witness :
  exists r r' : dict,
    registry initial_state = Some r
    /\ registry (@run_op echo_keras
                   (Op_load (Model_from_json "{}")
                      (Some {[ "SpectralDense" :=
                                 {| __name__ := "SpectralDense"; ident := 2 |} ]}))
                   initial_state) = Some r'
    /\ r' = r.
Proof.
  destruct (proj2 (@registry_only_grows_by_registration echo_keras)
              initial_state (@reachable_initial echo_keras)
              (Op_load (Model_from_json "{}")
                 (Some {[ "SpectralDense" :=
                            {| __name__ := "SpectralDense"; ident := 2 |} ]})))
    as (r & r' & Hr & Hr' & _ & _ & Hsame & _).
  exists r, r'. split; [exact Hr|]. split; [exact Hr'|].
  apply (Hsame _ _ eq_refl).
Defined.

(** ** The Lipschitz estimator *)

Section LipschitzFacts.
Import Lipschitz.
Context `{Backend}.

(** The estimator never raises; its result and final world are these. *)
Lemma evaluate_lip_const_run (model : tensor -> tensor) (x : tensor)
    (eps : R) (seed : option Z) (w : world) :
  evaluate_lip_const model x eps seed w
  = let noise := K_random_uniform (rng_draws w) (shape x) (eps * 0.25) eps seed in
    let x_var := tensor_add x noise in
    let lip_cst :=
      K_sqrt (K_max (vector_div
        (K_sum (K_square (tensor_sub (model x) (model x_var))))
        (K_sum (K_square (tensor_sub x x_var))))) in
    (Ok lip_cst,
     {| generator := generator w; rng_draws := S (rng_draws w);
        predict_calls := x_var :: x :: predict_calls w;
        stdout := lip_cst :: stdout w |}).
Proof. reflexivity. Qed.

(** Summing the squared entry-wise differences of two samples gives their
    squared distance. *)
Lemma sum_square_sub (u v : list R) :
  fold_right Rplus 0 (map (fun t => t * t) (zip_with Rminus u v)) = sq_dist u v.
Proof.
  unfold sq_dist. revert v.
  induction u as [|a u IH]; intros [|b v]; simpl; try reflexivity.
  rewrite IH. reflexivity.
Qed.

(** The tensor pipeline [K.sum(K.square(a - b))] computes, sample by
    sample, the squared distance. *)
Lemma K_sum_square_sub (a b : tensor) :
  K_sum (K_square (tensor_sub a b)) = zip_with sq_dist a b.
Proof.
  unfold K_sum, K_square, tensor_sub. revert b.
  induction a as [|u a IH]; intros [|v b]; simpl; try reflexivity.
  rewrite sum_square_sub, IH. reflexivity.
Qed.

Lemma sq_dist_nonneg (u v : list R) : 0 <= sq_dist u v.
Proof.
  unfold sq_dist. revert v.
  induction u as [|a u IH]; intros [|b v]; simpl; try lra.
  apply Rplus_le_le_0_compat; [|apply IH].
  apply Rle_0_sqr.
Qed.

(** A non-empty sample whose entries all moved has a positive squared
    distance to its perturbed copy. *)
Lemma sq_dist_pos (u v : list R) :
  Forall2 (fun a b => 0 < b - a) u v -> u <> [] -> 0 < sq_dist u v.
Proof.
  intros Huv Hne. destruct Huv as [|a b u v Hab Huv]; [contradiction|].
  unfold sq_dist. simpl.
  apply Rplus_lt_le_0_compat; [|apply sq_dist_nonneg].
  apply Rsqr_pos_lt. lra.
Qed.

(** Adding noise of the same shape with entries satisfying [P] relates
    each entry to its perturbed copy by an offset satisfying [P]. *)
Lemma sample_add_offsets (P : R -> Prop) (u n : list R) :
  length n = length u -> Forall P n ->
  Forall2 (fun a b => exists o, P o /\ b = a + o) u (zip_with Rplus u n).
Proof.
  revert n. induction u as [|a u IH]; intros [|o n] Hlen Hn; simpl in *;
    try discriminate; constructor.
  - exists o. split; [|reflexivity]. apply (Forall_inv Hn).
  - apply IH; [congruence | apply (Forall_inv_tail Hn)].
Qed.

Lemma tensor_add_offsets (P : R -> Prop) (x noise : tensor) :
  shape noise = shape x -> Forall (Forall P) noise ->
  Forall2 (Forall2 (fun a b => exists o, P o /\ b = a + o)) x (tensor_add x noise).
Proof.
  unfold shape, tensor_add. revert noise.
  induction x as [|u x IH]; intros [|n noise] Hshape Hn; simpl in *;
    try discriminate; constructor.
  - apply sample_add_offsets; [congruence | apply (Forall_inv Hn)].
  - apply IH; [congruence | apply (Forall_inv_tail Hn)].
Qed.

(** The perturbed input the estimator builds: every entry of [x] moved by
    an offset drawn from [[0.25 * eps, eps)]. *)
Lemma perturbed_input_offsets (x : tensor) (eps : R) (seed : option Z) (n : nat) :
  0 < eps ->
  Forall2 (Forall2 (fun a b => exists o, (0.25 * eps <= o < eps) /\ b = a + o))
    x (tensor_add x (K_random_uniform n (shape x) (eps * 0.25) eps seed)).
Proof.
  intros Heps. apply tensor_add_offsets; [apply random_uniform_shape|].
  eapply Forall_impl; [apply random_uniform_range; lra|].
  intros row Hrow. eapply Forall_impl; [exact Hrow|].
  intros v Hv. simpl in Hv. lra.
Qed.

(** With every entry moved and no sample empty, every denominator [ndx]
    is positive. *)
Lemma denominators_positive (x x_var : tensor) :
  Forall2 (Forall2 (fun a b => 0 < b - a)) x x_var ->
  Forall (fun sample => sample <> []) x ->
  Forall (fun d => 0 < d) (zip_with sq_dist x x_var).
Proof.
  induction 1 as [|u v x x_var Huv Hrest IH]; intros Hne; simpl; constructor.
  - apply sq_dist_pos; [exact Huv | apply (Forall_inv Hne)].
  - apply IH, (Forall_inv_tail Hne).
Qed.

(** Dividing by positive denominators gives real numbers throughout. *)
Lemma vector_div_defined (nums dens : list R) :
  Forall (fun d => 0 < d) dens ->
  vector_div nums dens = Some <$> zip_with Rdiv nums dens.
Proof.
  unfold vector_div. revert dens.
  induction nums as [|a nums IH]; intros [|d dens] Hpos; simpl; try reflexivity.
  rewrite (IH dens (Forall_inv_tail Hpos)).
  unfold float_div. destruct (Req_dec_T d 0) as [Hd|Hd]; [|reflexivity].
  pose proof (Forall_inv Hpos) as Hd0. simpl in Hd0. lra.
Qed.

(** On a non-empty vector of real numbers [K.max] is the greatest entry. *)
Lemma K_max_real (l : list R) :
  l <> [] ->
  exists m, K_max (Some <$> l) = Some m /\ m ∈ l /\ Forall (fun v => v <= m) l.
Proof.
  induction l as [|a l IH]; intros Hne; [contradiction|].
  destruct l as [|b l].
  - exists a. split; [reflexivity|]. split; [left|].
    constructor; [lra | constructor].
  - destruct IH as (m & Hmax & Hin & Hle); [discriminate|].
    exists (Rmax a m). split.
    + change (K_max (Some <$> a :: b :: l))
        with (match K_max (Some <$> b :: l) with
              | Some v => Some (Rmax a v)
              | None => None
              end).
      rewrite Hmax. reflexivity.
    + split.
      * destruct (Rmax_case a m (fun r => r = a \/ r = m)) as [->| ->]; auto.
        -- left.
        -- right. exact Hin.
      * constructor; [apply Rmax_l|].
        eapply Forall_impl; [exact Hle|].
        intros v Hv. simpl in Hv. pose proof (Rmax_r a m). lra.
Qed.

(** The vector of ratios, sample by sample. *)
Lemma ratios_by_index (f : tensor -> tensor) (x x_var : tensor) :
  length (f x) = length x ->
  length (f x_var) = length x ->
  length x_var = length x ->
  zip_with Rdiv (zip_with sq_dist (f x) (f x_var)) (zip_with sq_dist x x_var)
  = sample_ratio f x x_var <$> seq 0 (length x).
Proof.
  intros Hfx Hfxv Hxv. apply list_eq. intros i.
  rewrite list_lookup_fmap, !lookup_zip_with.
  destruct (le_lt_dec (length x) i) as [Hge|Hlt].
  - rewrite lookup_seq_ge by exact Hge.
    rewrite (lookup_ge_None_2 (f x) i) by lia. reflexivity.
  - rewrite lookup_seq_lt by exact Hlt. simpl.
    unfold sample_ratio. rewrite !nth_lookup.
    destruct (lookup_lt_is_Some_2 (f x) i) as [r1 ->]; [lia|].
    destruct (lookup_lt_is_Some_2 (f x_var) i) as [r2 ->]; [lia|].
    destruct (lookup_lt_is_Some_2 x i) as [r3 ->]; [lia|].
    destruct (lookup_lt_is_Some_2 x_var i) as [r4 ->]; [lia|].
    reflexivity.
Qed.

Lemma sample_ratio_nonneg (f : tensor -> tensor) (x x_var : tensor) (i : nat) :
  0 < sq_dist (nth i x []) (nth i x_var []) ->
  0 <= sample_ratio f x x_var i.
Proof.
  intros Hpos. unfold sample_ratio.
  apply Rmult_le_pos; [apply sq_dist_nonneg|].
  left. apply Rinv_0_lt_compat. exact Hpos.
Qed.

Lemma denominator_at (x x_var : tensor) (i : nat) :
  Forall (fun d => 0 < d) (zip_with sq_dist x x_var) ->
  length x_var = length x -> (i < length x)%nat ->
  0 < sq_dist (nth i x []) (nth i x_var []).
Proof.
  intros Hpos Hlen Hi. rewrite !nth_lookup.
  destruct (lookup_lt_is_Some_2 x i) as [u Hu]; [lia|].
  destruct (lookup_lt_is_Some_2 x_var i) as [v Hv]; [lia|].
  rewrite Hu, Hv. simpl.
  apply (Forall_lookup_1 _ _ i _ Hpos).
  rewrite lookup_zip_with, Hu, Hv. reflexivity.
Qed.

(** Offsets from [[0.25 * eps, eps)] with [eps] positive move every entry
    upwards. *)
Lemma offsets_move_entries (eps : R) (x x_var : tensor) :
  0 < eps ->
  Forall2 (Forall2 (fun a b => exists o, (0.25 * eps <= o < eps) /\ b = a + o))
    x x_var ->
  Forall2 (Forall2 (fun a b => (0.25 * eps <= b - a < eps) /\ 0 < b - a)) x x_var.
Proof.
  intros Heps Hoff. eapply Forall2_impl; [exact Hoff|].
  intros u v Huv. eapply Forall2_impl; [exact Huv|].
  intros a b (o & Ho & ->). simpl. lra.
Qed.

Lemma entries_moved_positive (eps : R) (x x_var : tensor) :
  Forall2 (Forall2 (fun a b => (0.25 * eps <= b - a < eps) /\ 0 < b - a)) x x_var ->
  Forall2 (Forall2 (fun a b => 0 < b - a)) x x_var.
Proof.
  intros Hmv. eapply Forall2_impl; [exact Hmv|].
  intros u v Huv. eapply Forall2_impl; [exact Huv|].
  intros a b [_ Hpos]. exact Hpos.
Qed.


(** C9: in exact arithmetic, for [eps] positive and samples that are not
    empty, every entry of [x_var - x] lies in [[0.25 * eps, eps)] and is
    positive, [x_var] being the perturbed input that [evaluate_lip_const]
    builds and runs the model on; so every denominator [ndx] of the
    division it performs is positive, every quotient [ndfx / ndx] is a
    real number, and the value it returns is [K.sqrt] of [K.max] of these
    real quotients: no division by zero enters the result. *)
Theorem perturbation_keeps_denominators_positive
    (model : tensor -> tensor) (x : tensor) (eps : R) (seed : option Z)
    (w : world) :
  0 < eps ->
  Forall (fun sample => sample <> []) x ->
  exists (x_var : tensor) (ndfx ndx : list R),
    x_var = tensor_add x
              (K_random_uniform (rng_draws w) (shape x) (eps * 0.25) eps seed)
    /\ predict_calls (snd (evaluate_lip_const model x eps seed w))
       = x_var :: x :: predict_calls w
    /\ Forall2 (Forall2 (fun a b => (0.25 * eps <= b - a < eps) /\ 0 < b - a))
         x x_var
    /\ ndfx = K_sum (K_square (tensor_sub (model x) (model x_var)))
    /\ ndx = K_sum (K_square (tensor_sub x x_var))
    /\ length ndx = length x
    /\ Forall (fun d => 0 < d) ndx
    /\ vector_div ndfx ndx = Some <$> zip_with Rdiv ndfx ndx
    /\ fst (evaluate_lip_const model x eps seed w)
       = Ok (K_sqrt (K_max (Some <$> zip_with Rdiv ndfx ndx))).
Proof.
  intros Heps Hsamples.
  rewrite evaluate_lip_const_run. cbv zeta.
  set (x_var := tensor_add x
                  (K_random_uniform (rng_draws w) (shape x) (eps * 0.25) eps seed)).
  pose proof (offsets_move_entries eps x x_var Heps
                (perturbed_input_offsets x eps seed (rng_draws w) Heps)) as Hmv.
  pose proof (denominators_positive x x_var
                (entries_moved_positive eps x x_var Hmv) Hsamples) as Hden.
  rewrite <- K_sum_square_sub in Hden.
  exists x_var, (K_sum (K_square (tensor_sub (model x) (model x_var)))),
         (K_sum (K_square (tensor_sub x x_var))).
  split; [reflexivity|]. split; [reflexivity|]. split; [exact Hmv|].
  split; [reflexivity|]. split; [reflexivity|].
  split.
  { rewrite K_sum_square_sub, length_zip_with.
    rewrite <- (Forall2_length _ _ _ Hmv). lia. }
  split; [exact Hden|].
  split; [apply (vector_div_defined _ _ Hden)|].
  simpl. rewrite (vector_div_defined _ _ Hden). reflexivity.
Qed.

(** C5: when the generator's next batch is a triple [(x, y, sample_weight)],
    [evaluate_lip_const_gen] takes exactly that batch from the generator
    and is [evaluate_lip_const] on [x]; its result does not depend on [y]
    or [sample_weight]. *)
Theorem evaluate_lip_const_gen_delegates
    (model : tensor -> tensor) (eps : R) (seed : option Z) (w : world)
    (x y sample_weight : tensor) (rest : list (list tensor)) :
  generator w = [x; y; sample_weight] :: rest ->
  evaluate_lip_const_gen model eps seed w
  = evaluate_lip_const model x eps seed (set_generator rest w)
  /\ generator (snd (evaluate_lip_const_gen model eps seed w)) = rest
  /\ forall y' sample_weight' : tensor,
       fst (evaluate_lip_const_gen model eps seed
              (set_generator ([x; y'; sample_weight'] :: rest) w))
       = fst (evaluate_lip_const_gen model eps seed w).
Proof.
  intros Hgen.
  assert (Hrun : forall w' y' sw',
             generator w' = [x; y'; sw'] :: rest ->
             evaluate_lip_const_gen model eps seed w'
             = evaluate_lip_const model x eps seed (set_generator rest w')).
  { intros w' y' sw' Hw'.
    unfold evaluate_lip_const_gen, generator_send, mbind, M_bind.
    rewrite Hw'. reflexivity. }
  split; [apply (Hrun w y sample_weight Hgen)|]. split.
  - rewrite (Hrun w y sample_weight Hgen), evaluate_lip_const_run. reflexivity.
  - intros y' sw'.
    rewrite (Hrun w y sample_weight Hgen).
    rewrite (Hrun (set_generator ([x; y'; sw'] :: rest) w) y' sw' eq_refl).
    rewrite !evaluate_lip_const_run. reflexivity.
Qed.

(** C8: when the generator's next batch has fewer than two components,
    [evaluate_lip_const_gen] raises the unpacking [ValueError] as its own
    outcome, the batch being consumed, and the model is not run. *)
Theorem evaluate_lip_const_gen_short_batch
    (model : tensor -> tensor) (eps : R) (seed : option Z) (w : world)
    (batch : list tensor) (rest : list (list tensor)) :
  generator w = batch :: rest ->
  (length batch < 2)%nat ->
  exists msg : string,
    evaluate_lip_const_gen model eps seed w
    = (Raise (ValueError msg), set_generator rest w)
    /\ predict_calls (snd (evaluate_lip_const_gen model eps seed w))
       = predict_calls w.
Proof.
  intros Hgen Hshort.
  unfold evaluate_lip_const_gen, generator_send, mbind, M_bind.
  rewrite Hgen.
  destruct batch as [|a [|b batch]]; simpl in Hshort; [| |lia].
  - eexists. split; reflexivity.
  - eexists. split; reflexivity.
Qed.

End LipschitzFacts.

Import Lipschitz.

Lemma lowest_draw_shape (sh : list nat) (minval : R) :
  shape (lowest_draw sh minval) = sh.
Proof.
  unfold shape, lowest_draw. induction sh as [|size sh IH]; simpl.
  - reflexivity.
  - rewrite repeat_length, IH. reflexivity.
Qed.

Lemma lowest_draw_range (sh : list nat) (minval maxval : R) :
  minval < maxval ->
  Forall (Forall (fun v => minval <= v < maxval)) (lowest_draw sh minval).
Proof.
  intros Hlt. unfold lowest_draw.
  induction sh as [|size sh IH]; simpl; constructor; [|exact IH].
  induction size as [|size IHsize]; simpl; constructor; [lra | exact IHsize].
Qed.

(** A backend whose generator always answers the lowest draw. *)
Definition lowest_backend : Backend :=
  {| K_random_uniform := fun _ sh minval _ _ => lowest_draw sh minval;
     random_uniform_shape := fun _ sh minval _ _ => lowest_draw_shape sh minval;
     random_uniform_range := fun _ sh minval maxval _ =>
                               lowest_draw_range sh minval maxval |}.



Lemma perturbation_keeps_denominators_positive_witness :
  exists ndfx ndx : list R,
    length ndx = 2%nat
    /\ Forall (fun d => 0 < d) ndx
    /\ fst (@evaluate_lip_const lowest_backend sum_model [[1; 2]; [3; 4]] 1 None
              (fresh_world []))
       = Ok (K_sqrt (K_max (Some <$> zip_with Rdiv ndfx ndx))).
Proof.
  destruct (@perturbation_keeps_denominators_positive lowest_backend
              sum_model [[1; 2]; [3; 4]] 1 None (fresh_world []))
    as (x_var & ndfx & ndx & _ & _ & _ & _ & _ & Hlen & Hden & _ & Hresult).
  - lra.
  - repeat (constructor; [discriminate|]). constructor.
  - exists ndfx, ndx. split; [exact Hlen|]. split; [exact Hden | exact Hresult].
Defined.

Lemma evaluate_lip_const_gen_delegates_witness :
  @evaluate_lip_const_gen lowest_backend (fun a => a) 1 None
    (fresh_world [[ [[1]]; [[0]]; [[5]] ]])
  = @evaluate_lip_const lowest_backend (fun a => a) [[1]] 1 None
      (set_generator [] (fresh_world [[ [[1]]; [[0]]; [[5]] ]])).
Proof.
  apply (proj1 (@evaluate_lip_const_gen_delegates lowest_backend
                  (fun a => a) 1 None (fresh_world [[ [[1]]; [[0]]; [[5]] ]])
                  [[1]] [[0]] [[5]] [] eq_refl)).
Defined.

Lemma evaluate_lip_const_gen_short_batch_witness :
  exists msg : string,
    fst (@evaluate_lip_const_gen lowest_backend (fun a => a) 1 None
           (fresh_world [[ [[1]] ]]))
    = Raise (ValueError msg).
Proof.
  destruct (@evaluate_lip_const_gen_short_batch lowest_backend
              (fun a => a) 1 None (fresh_world [[ [[1]] ]]) [ [[1]] ] []
              eq_refl)
    as (msg & Hrun & _).
  - simpl. lia.
  - exists msg. rewrite Hrun. reflexivity.
Defined.

(** * Further properties *)

(** ** Fan-in / fan-out: layouts, errors and the fallback *)

Section FansMore.
Import Fans.

Lemma product_app (l k : list Z) : product (l ++ k) = product l * product k.
Proof.
  induction l as [|d l IH]; simpl.
  - destruct (product k); reflexivity.
  - rewrite IH. lia.
Qed.

Lemma product_rev (l : list Z) : product (rev l) = product l.
Proof.
  induction l as [|d l IH]; simpl; [reflexivity|].
  rewrite product_app, IH. simpl. lia.
Qed.

Lemma product_permutation (l k : list Z) : l ≡ₚ k -> product l = product k.
Proof.
  induction 1 as [|d l k _ IH|d e l|l k m _ IH1 _ IH2]; simpl.
  - reflexivity.
  - rewrite IH. reflexivity.
  - lia.
  - congruence.
Qed.

Lemma product_nonneg (l : list Z) : Forall (fun d => 0 <= d) l -> 0 <= product l.
Proof.
  induction 1 as [|d l Hd _ IH]; simpl; [lia|].
  apply Z.mul_nonneg_nonneg; assumption.
Qed.


(** X1: The two layouts are mirror images: reading a shape with the channels
    in front gives the fans of the reversed shape read with the channels
    at the back.  (Rank 2 is excluded: there the layout is not looked at
    and reversing the shape swaps the fans.) *)
Theorem compute_fans_layouts_mirror (shape : list Z) :
  length shape <> 2%nat ->
  _compute_fans shape "channels_first"
  = _compute_fans (rev shape) "channels_last".
Proof.
  intros Hrank.
  destruct (le_lt_dec 3 (length shape)) as [H3|H3];
    [destruct (le_lt_dec (length shape) 5) as [H5|H5]|].
  - destruct shape as [|o [|i spatial]]; simpl in H3, H5; try lia.
    rewrite compute_fans_channels_first by lia.
    simpl rev. rewrite <- app_assoc. simpl app.
    rewrite compute_fans_channels_last by (rewrite length_rev; lia).
    rewrite product_rev. reflexivity.
  - rewrite !compute_fans_fallback by (rewrite ?length_rev; lia).
    rewrite !np_prod_product, product_rev. reflexivity.
  - rewrite !compute_fans_fallback by (rewrite ?length_rev; lia).
    rewrite !np_prod_product, product_rev. reflexivity.
Qed.

Lemma compute_fans_layouts_mirror_witness :
  _compute_fans [8; 4; 3; 5] "channels_first"
  = _compute_fans [5; 3; 4; 8] "channels_last".
Proof.
  apply (compute_fans_layouts_mirror [8; 4; 3; 5]). discriminate.
Defined.

(** X2: The fans of a convolution kernel do not depend on the order of its
    spatial dimensions, in either layout. *)
Theorem compute_fans_spatial_order (spatial spatial' : list Z) (i o : Z) :
  spatial ≡ₚ spatial' ->
  (1 <= length spatial <= 3)%nat ->
  _compute_fans (spatial ++ [i; o]) "channels_last"
  = _compute_fans (spatial' ++ [i; o]) "channels_last"
  /\ _compute_fans (o :: i :: spatial) "channels_first"
     = _compute_fans (o :: i :: spatial') "channels_first".
Proof.
  intros Hperm Hlen.
  pose proof (Permutation_length Hperm) as Hlen'.
  rewrite !compute_fans_channels_last, !compute_fans_channels_first by lia.
  rewrite (product_permutation _ _ Hperm). split; reflexivity.
Qed.

Lemma compute_fans_spatial_order_witness :
  _compute_fans ([3; 5] ++ [4; 8]) "channels_last"
  = _compute_fans ([5; 3] ++ [4; 8]) "channels_last".
Proof.
  apply (proj1 (compute_fans_spatial_order [3; 5] [5; 3] 4 8
                  (Permutation_swap 5 3 []) ltac:(simpl; lia))).
Defined.



(** X4: In exact arithmetic, on a shape whose rank is not 2, 3, 4 or 5 and
    whose dimensions are non-negative int64 values with a product below
    [2^63], fan-in and fan-out are one and the same non-negative real
    number, whose square is the number of entries of the tensor. *)
Theorem compute_fans_fallback_geometric
    (shape : list Z) (data_format : string) :
  (length shape < 2 \/ 5 < length shape)%nat ->
  Forall (fun d => 0 <= d < 2 ^ 63) shape ->
  product shape < 2 ^ 63 ->
  exists r : R,
    _compute_fans shape data_format = Ok (PyFloat (Some r), PyFloat (Some r))
    /\ (0 <= r)%R
    /\ (r * r)%R = IZR (product shape).
Proof.
  intros Hrank Hdims Hbound.
  assert (Hprod : 0 <= product shape).
  { apply product_nonneg. eapply Forall_impl; [exact Hdims|].
    intros d Hd. simpl in Hd. lia. }
  exists (sqrt (IZR (product shape))).
  rewrite compute_fans_fallback by exact Hrank.
  rewrite np_sqrt_product by (unfold fits_int64; lia).
  destruct (Z.ltb_spec (product shape) 0) as [Hneg|_]; [lia|].
  split; [reflexivity|]. split; [apply sqrt_pos|].
  apply sqrt_sqrt. apply IZR_le. exact Hprod.
Qed.

Lemma compute_fans_fallback_geometric_witness :
  exists r : R,
    _compute_fans [2; 3; 1; 5; 2; 6] "channels_last"
    = Ok (PyFloat (Some r), PyFloat (Some r))
    /\ (r * r)%R = 360%R.
Proof.
  destruct (compute_fans_fallback_geometric [2; 3; 1; 5; 2; 6] "channels_last")
    as (r & Hfans & _ & Hsq).
  - right. simpl. lia.
  - repeat (constructor; [lia|]). constructor.
  - simpl. lia.
  - exists r. split; [exact Hfans | exact Hsq].
Defined.

End FansMore.

(** ** Registry and loaders: invariants and composition *)

Section RegistryMore.
Context `{Keras}.

(** Every entry of the dict sits under the name of the object it holds. *)
Definition keyed_by_name (r : dict) : Prop :=
  forall (n : string) (f : callable), r !! n = Some f -> __name__ f = n.

(** X5: In every state the process can reach, each entry of the registry is
    stored under the [__name__] of the object it holds. *)
Theorem registry_keyed_by_name (s : state) :
  reachable s ->
  exists r : dict, registry s = Some r /\ keyed_by_name r.
Proof.
  induction 1 as [|o s Hs (r & Hr & Hkeys)].
  - exists ∅. split; [reflexivity|]. intros n f Hn.
    rewrite lookup_empty in Hn. discriminate.
  - destruct o as [[f|i]|ld c]; simpl.
    + exists (<[__name__ f := f]> r).
      split; [apply (registry_after_export f s r Hr)|].
      intros n g Hn. destruct (decide (__name__ f = n)) as [Heq|Hne].
      * subst n. rewrite lookup_insert_eq in Hn. congruence.
      * rewrite lookup_insert_ne in Hn by exact Hne. apply (Hkeys n g Hn).
    + exists r. split; [exact Hr | exact Hkeys].
    + exists r. split; [apply (registry_after_loader ld c s r Hr) | exact Hkeys].
Qed.

(** X6: Exporting the same object twice is the same as exporting it once. *)
Theorem deel_export_idempotent (f : callable) (s : state) (r : dict) :
  registry s = Some r ->
  deel_export f (snd (deel_export f s)) = deel_export f s.
Proof.
  intros Hr.
  rewrite (deel_export_run f _ _ (registry_after_export f s r Hr)).
  rewrite (deel_export_run f s r Hr). unfold set_heap. simpl.
  rewrite !insert_insert_eq. reflexivity.
Qed.

(** X7: Exporting two objects of different names in either order leaves
    registries that answer every name alike: both objects under their
    names, every other name as before.  (The order in which a Python dict
    lists its keys, which does differ between the two, is not part of
    this statement.) *)
Theorem deel_export_commute (f g : callable) (s : state) (r : dict) :
  registry s = Some r ->
  __name__ f <> __name__ g ->
  exists r_fg r_gf : dict,
    registry (snd (deel_export g (snd (deel_export f s)))) = Some r_fg
    /\ registry (snd (deel_export f (snd (deel_export g s)))) = Some r_gf
    /\ r_fg !! __name__ f = Some f
    /\ r_fg !! __name__ g = Some g
    /\ (forall n : string, r_fg !! n = r_gf !! n)
    /\ (forall n : string,
          n <> __name__ f -> n <> __name__ g -> r_fg !! n = r !! n).
Proof.
  intros Hr Hne.
  exists (<[__name__ g := g]> (<[__name__ f := f]> r)),
         (<[__name__ f := f]> (<[__name__ g := g]> r)).
  split; [apply registry_after_export, registry_after_export, Hr|].
  split; [apply registry_after_export, registry_after_export, Hr|].
  split.
  { rewrite lookup_insert_ne by congruence. apply lookup_insert_eq. }
  split; [apply lookup_insert_eq|].
  split.
  - intros n. rewrite (insert_insert_ne r) by congruence. reflexivity.
  - intros n Hf Hg. rewrite !lookup_insert_ne by congruence. reflexivity.
Qed.

(** X8: A loader call allocates exactly one dict object and leaves every
    dict object that existed before exactly as it was. *)
Theorem loader_touches_only_its_copy
    (ld : loader) (c : option dict) (s : state) (r : dict) :
  registry s = Some r ->
  exists l : loc,
    (l ∉ dom (heap s))
    /\ dom (heap (snd (run_loader ld c s))) = {[ l ]} ∪ dom (heap s)
    /\ forall (l' : loc) (d : dict),
         heap s !! l' = Some d -> heap (snd (run_loader ld c s)) !! l' = Some d.
Proof.
  intros Hr. exists (fresh (dom (heap s))).
  rewrite (run_loader_run ld c s r Hr). simpl.
  split; [apply is_fresh|]. split; [apply dom_insert_L|].
  intros l' d Hl'. rewrite lookup_insert_ne; [exact Hl'|].
  intros Heq. apply (is_fresh (dom (heap s))). rewrite Heq.
  apply elem_of_dom. eauto.
Qed.

(** X9: Passing an empty dict of custom objects is the same as passing
    [None]. *)
Theorem loader_empty_overrides (ld : loader) (s : state) (r : dict) :
  registry s = Some r ->
  run_loader ld (Some ∅) s = run_loader ld None s.
Proof.
  intros Hr. rewrite !(run_loader_run ld _ s r Hr). simpl.
  rewrite (left_id_L ∅ (∪) r). reflexivity.
Qed.

(** X10: Loading twice in a row hands the framework the same mapping both
    times, whatever the framework did to the dict it was handed first. *)
Theorem loader_repeatable
    (ld : loader) (c : option dict) (s : state) (r : dict) :
  registry s = Some r ->
  exists e : dict,
    is_overlay r c e
    /\ keras_calls (snd (run_loader ld c (snd (run_loader ld c s))))
       = framework_call ld e :: framework_call ld e :: keras_calls s.
Proof.
  intros Hr. exists (effective r c). split; [apply effective_overlay|].
  rewrite (run_loader_run ld c _ r (registry_after_loader ld c s r Hr)).
  rewrite (run_loader_run ld c s r Hr). reflexivity.
Qed.

End RegistryMore.

Lemma registry_keyed_by_name_witness :
  exists r : dict,
    registry (@run_op echo_keras
                (Op_deel_export {| __name__ := "SpectralDense"; ident := 1 |})
                initial_state) = Some r
    /\ keyed_by_name r.
Proof.
  apply (@registry_keyed_by_name echo_keras).
  apply reachable_step, reachable_initial.
Defined.

Lemma deel_export_idempotent_witness :
  deel_export {| __name__ := "FrobeniusDense"; ident := 3 |}
    (snd (deel_export {| __name__ := "FrobeniusDense"; ident := 3 |}
            initial_state))
  = deel_export {| __name__ := "FrobeniusDense"; ident := 3 |} initial_state.
Proof.
  apply (deel_export_idempotent _ initial_state ∅ eq_refl).
Defined.

Lemma deel_export_commute_witness :
  exists r_fg r_gf : dict,
    registry (snd (deel_export FrobeniusDense
                     (snd (deel_export SpectralDense_patched two_exports))))
    = Some r_fg
    /\ registry (snd (deel_export SpectralDense_patched
                        (snd (deel_export FrobeniusDense two_exports))))
       = Some r_gf
    /\ forall n : string, r_fg !! n = r_gf !! n.
Proof.
  destruct (deel_export_commute SpectralDense_patched FrobeniusDense
              two_exports two_exports_registry two_exports_has_registry)
    as (r_fg & r_gf & Hfg & Hgf & _ & _ & Hsame & _).
  - discriminate.
  - exists r_fg, r_gf. split; [exact Hfg|]. split; [exact Hgf | exact Hsame].
Defined.

Lemma loader_touches_only_its_copy_witness :
  exists l : loc,
    (l ∉ dom (heap initial_state))
    /\ dom (heap (snd (@run_loader wiping_keras (Model_from_yaml "a: 1") None
                         initial_state)))
       = {[ l ]} ∪ dom (heap initial_state).
Proof.
  destruct (@loader_touches_only_its_copy wiping_keras
              (Model_from_yaml "a: 1") None initial_state ∅ eq_refl)
    as (l & Hfresh & Hdom & _).
  exists l. split; [exact Hfresh | exact Hdom].
Defined.

Lemma loader_empty_overrides_witness :
  @run_loader echo_keras (Load_model "model.h5" false) (Some ∅) initial_state
  = @run_loader echo_keras (Load_model "model.h5" false) None initial_state.
Proof.
  apply (@loader_empty_overrides echo_keras _ initial_state ∅ eq_refl).
Defined.

Lemma loader_repeatable_witness :
  exists e : dict,
    e !! "SpectralDense" = Some SpectralDense_patched
    /\ e !! "FrobeniusDense" = Some FrobeniusDense
    /\ keras_calls
         (snd (@run_loader wiping_keras (Model_from_json "{}")
                 (Some {[ "SpectralDense" := SpectralDense_patched ]})
                 (snd (@run_loader wiping_keras (Model_from_json "{}")
                         (Some {[ "SpectralDense" := SpectralDense_patched ]})
                         two_exports))))
       = [Call_model_from_json "{}" e; Call_model_from_json "{}" e].
Proof.
  destruct (@loader_repeatable wiping_keras (Model_from_json "{}")
              (Some {[ "SpectralDense" := SpectralDense_patched ]})
              two_exports two_exports_registry two_exports_has_registry)
    as (e & Hoverlay & Hcalls).
  exists e.
  split; [rewrite (Hoverlay "SpectralDense"); reflexivity|].
  split; [rewrite (Hoverlay "FrobeniusDense"); reflexivity|].
  exact Hcalls.
Defined.

(** ** The estimator: effects, errors and what it measures *)

(** The model [y = k * x]. *)
Definition scale_model (k : R) (a : tensor) : tensor := map (map (Rmult k)) a.

Section LipschitzMore.
Context `{Backend}.

Lemma zip_with_add_length (u n : list R) :
  length n = length u -> length (zip_with Rplus u n) = length u.
Proof. intros Hlen. rewrite length_zip_with. lia. Qed.

(** Adding a tensor of the same shape keeps the shape. *)
Lemma tensor_add_shape (x noise : tensor) :
  shape noise = shape x -> shape (tensor_add x noise) = shape x.
Proof.
  unfold shape, tensor_add. revert noise.
  induction x as [|u x IH]; intros [|n noise] Hshape; simpl in *;
    try discriminate; [reflexivity|].
  injection Hshape as Hhead Htail.
  rewrite zip_with_add_length by exact Hhead. rewrite IH by exact Htail.
  reflexivity.
Qed.

Lemma shape_length (a b : tensor) : shape a = shape b -> length a = length b.
Proof.
  unfold shape. intros Hshape.
  rewrite <- (length_map length a), <- (length_map length b), Hshape.
  reflexivity.
Qed.

(** [K.max] is not a number as soon as one entry is not. *)
Lemma K_max_None (l : list float) : None ∈ l -> K_max l = None.
Proof.
  induction l as [|a l IH]; intros Hin; [inversion Hin|].
  destruct l as [|b l].
  - apply list_elem_of_singleton in Hin. subst a. reflexivity.
  - change (K_max (a :: b :: l))
      with (match a, K_max (b :: l) with
            | Some u, Some v => Some (Rmax u v)
            | _, _ => None
            end).
    apply elem_of_cons in Hin. destruct Hin as [<-|Hin]; [reflexivity|].
    rewrite (IH Hin). destruct a; reflexivity.
Qed.

(** In the regime where every denominator is positive, the estimator
    returns [K.sqrt] of [K.max] of the per-sample ratios. *)
Lemma evaluate_lip_const_ratios
    (model : tensor -> tensor) (x : tensor) (eps : R) (seed : option Z)
    (w : world) :
  0 < eps ->
  Forall (fun sample => sample <> []) x ->
  (forall a : tensor, length (model a) = length a) ->
  exists x_var : tensor,
    length x_var = length x
    /\ Forall (fun d => 0 < d) (zip_with sq_dist x x_var)
    /\ fst (evaluate_lip_const model x eps seed w)
       = Ok (K_sqrt (K_max (Some <$> (sample_ratio model x x_var
                                        <$> seq 0 (length x))))).
Proof.
  intros Heps Hsamples Hmodel.
  rewrite evaluate_lip_const_run. cbv zeta.
  set (x_var := tensor_add x
                  (K_random_uniform (rng_draws w) (shape x) (eps * 0.25) eps seed)).
  pose proof (perturbed_input_offsets x eps seed (rng_draws w) Heps) as Hoff.
  fold x_var in Hoff.
  assert (Hlen : length x_var = length x)
    by (symmetry; apply (Forall2_length _ _ _ Hoff)).
  pose proof (denominators_positive x x_var
                (entries_moved_positive eps x x_var
                   (offsets_move_entries eps x x_var Heps Hoff)) Hsamples)
    as Hden.
  exists x_var. split; [exact Hlen|]. split; [exact Hden|].
  simpl. rewrite !K_sum_square_sub, (vector_div_defined _ _ Hden).
  rewrite ratios_by_index by (rewrite ?Hmodel; congruence).
  reflexivity.
Qed.

(** When every sample has the same ratio [c >= 0], the estimate is the
    square root of [c]. *)
Lemma evaluate_lip_const_constant_ratio
    (model : tensor -> tensor) (x : tensor) (eps : R) (seed : option Z)
    (w : world) (c : R) :
  0 < eps ->
  x <> [] ->
  Forall (fun sample => sample <> []) x ->
  (forall a : tensor, length (model a) = length a) ->
  0 <= c ->
  (forall (x_var : tensor) (i : nat),
     0 < sq_dist (nth i x []) (nth i x_var []) ->
     sample_ratio model x x_var i = c) ->
  fst (evaluate_lip_const model x eps seed w) = Ok (Some (sqrt c)).
Proof.
  intros Heps Hbatch Hsamples Hmodel Hc Hratio.
  destruct (evaluate_lip_const_ratios model x eps seed w Heps Hsamples Hmodel)
    as (x_var & Hlen & Hden & ->).
  destruct (K_max_real (sample_ratio model x x_var <$> seq 0 (length x)))
    as (m & -> & Hin & _).
  { destruct x; [contradiction | discriminate]. }
  apply list_elem_of_fmap in Hin. destruct Hin as (i & -> & Hi).
  apply elem_of_seq in Hi.
  rewrite (Hratio x_var i (denominator_at x x_var i Hden Hlen ltac:(lia))).
  unfold K_sqrt. destruct (Rlt_dec c 0) as [Hneg|_]; [lra | reflexivity].
Qed.

Lemma sq_dist_scale (k : R) (u v : list R) :
  sq_dist (map (Rmult k) u) (map (Rmult k) v) = k * k * sq_dist u v.
Proof.
  unfold sq_dist. revert v.
  induction u as [|a u IH]; intros [|b v]; simpl; try lra.
  rewrite IH. lra.
Qed.

Lemma nth_scale_model (k : R) (a : tensor) (i : nat) :
  nth i (scale_model k a) [] = map (Rmult k) (nth i a []).
Proof.
  unfold scale_model. revert i.
  induction a as [|u a IH]; intros [|i]; simpl; try reflexivity.
  apply IH.
Qed.

(** X11: For the identity model the estimate is exactly 1. *)
Theorem evaluate_lip_const_identity
    (x : tensor) (eps : R) (seed : option Z) (w : world) :
  0 < eps ->
  x <> [] ->
  Forall (fun sample => sample <> []) x ->
  fst (evaluate_lip_const (fun a => a) x eps seed w) = Ok (Some 1).
Proof.
  intros Heps Hbatch Hsamples. rewrite <- sqrt_1.
  apply evaluate_lip_const_constant_ratio; try assumption; try lra.
  - reflexivity.
  - intros x_var i Hpos. unfold sample_ratio. field. lra.
Qed.

(** X12: For the model [y = k * x] the estimate is exactly [|k|]. *)
Theorem evaluate_lip_const_scaling
    (k : R) (x : tensor) (eps : R) (seed : option Z) (w : world) :
  0 < eps ->
  x <> [] ->
  Forall (fun sample => sample <> []) x ->
  fst (evaluate_lip_const (scale_model k) x eps seed w) = Ok (Some (Rabs k)).
Proof.
  intros Heps Hbatch Hsamples. rewrite <- sqrt_Rsqr_abs. unfold Rsqr.
  apply evaluate_lip_const_constant_ratio; try assumption.
  - intros a. unfold scale_model. apply length_map.
  - apply Rle_0_sqr.
  - intros x_var i Hpos. unfold sample_ratio.
    rewrite !nth_scale_model, sq_dist_scale. field. lra.
Qed.

(** X13: The estimate never exceeds a Lipschitz constant of the model: if on
    every sample the squared output distance is at most [L * L] times the
    squared input distance, the result is a real number in [[0, L]]. *)
Theorem evaluate_lip_const_below_lipschitz
    (model : tensor -> tensor) (L : R) (x : tensor) (eps : R)
    (seed : option Z) (w : world) :
  0 < eps ->
  x <> [] ->
  Forall (fun sample => sample <> []) x ->
  (forall a : tensor, length (model a) = length a) ->
  0 <= L ->
  (forall (a b : tensor) (i : nat),
     sq_dist (nth i (model a) []) (nth i (model b) [])
     <= L * L * sq_dist (nth i a []) (nth i b [])) ->
  exists v : R,
    fst (evaluate_lip_const model x eps seed w) = Ok (Some v)
    /\ 0 <= v <= L.
Proof.
  intros Heps Hbatch Hsamples Hmodel HL Hlip.
  destruct (evaluate_lip_const_ratios model x eps seed w Heps Hsamples Hmodel)
    as (x_var & Hlen & Hden & ->).
  destruct (K_max_real (sample_ratio model x x_var <$> seq 0 (length x)))
    as (m & -> & Hin & _).
  { destruct x; [contradiction | discriminate]. }
  apply list_elem_of_fmap in Hin. destruct Hin as (i & -> & Hi).
  apply elem_of_seq in Hi.
  pose proof (denominator_at x x_var i Hden Hlen ltac:(lia)) as Hpos.
  pose proof (sample_ratio_nonneg model x x_var i Hpos) as Hnn.
  assert (Hle : sample_ratio model x x_var i <= L * L).
  { unfold sample_ratio.
    apply (Rmult_le_reg_r (sq_dist (nth i x []) (nth i x_var []))); [exact Hpos|].
    unfold Rdiv. rewrite Rmult_assoc, Rinv_l, Rmult_1_r by lra.
    apply Hlip. }
  exists (sqrt (sample_ratio model x x_var i)). split.
  - unfold K_sqrt.
    destruct (Rlt_dec (sample_ratio model x x_var i) 0); [lra | reflexivity].
  - split; [apply sqrt_pos|].
    rewrite <- (sqrt_square L HL). apply sqrt_le_1_alt. exact Hle.
Qed.

(** X14: The division is unguarded: with a sample that has no entries its
    denominator is zero, and the estimator returns a value that is no
    number instead of raising. *)
Theorem evaluate_lip_const_empty_sample
    (model : tensor -> tensor) (x : tensor) (eps : R) (seed : option Z)
    (w : world) (i : nat) :
  x !! i = Some [] ->
  (forall a : tensor, length (model a) = length a) ->
  fst (evaluate_lip_const model x eps seed w) = Ok None.
Proof.
  intros Hi Hmodel. unfold tensor in Hi.
  rewrite evaluate_lip_const_run. cbv zeta. simpl.
  set (x_var := tensor_add x
                  (K_random_uniform (rng_draws w) (shape x) (eps * 0.25) eps seed)).
  assert (Hlen : length x_var = length x).
  { apply shape_length, tensor_add_shape, random_uniform_shape. }
  pose proof (lookup_lt_Some _ _ _ Hi) as Hlt.
  rewrite !K_sum_square_sub. rewrite K_max_None; [reflexivity|].
  apply list_elem_of_lookup. exists i.
  destruct (lookup_lt_is_Some_2 (model x) i) as [r1 Hr1]; [rewrite Hmodel; lia|].
  destruct (lookup_lt_is_Some_2 (model x_var) i) as [r2 Hr2];
    [rewrite Hmodel; lia|].
  destruct (lookup_lt_is_Some_2 x_var i) as [r4 Hr4]; [lia|].
  assert (Hnum : zip_with sq_dist (model x) (model x_var) !! i
                 = Some (sq_dist r1 r2)).
  { rewrite lookup_zip_with, Hr1. simpl. rewrite Hr2. reflexivity. }
  assert (Hden : zip_with sq_dist x x_var !! i = Some (sq_dist [] r4)).
  { rewrite lookup_zip_with, Hi. simpl. rewrite Hr4. reflexivity. }
  unfold vector_div. rewrite lookup_zip_with, Hnum. simpl. rewrite Hden. simpl.
  unfold float_div.
  destruct (Req_dec_T (sq_dist [] r4) 0) as [_|Hne]; [reflexivity|].
  exfalso. apply Hne. reflexivity.
Qed.

(** X16: A batch that is not a triple (a pair [(x, y)] included) makes the
    generator form raise the unpacking [ValueError]: the batch is
    consumed, and the model is not run, nothing is drawn and nothing is
    printed. *)
Theorem evaluate_lip_const_gen_wrong_arity
    (model : tensor -> tensor) (eps : R) (seed : option Z) (w : world)
    (batch : list tensor) (rest : list (list tensor)) :
  generator w = batch :: rest ->
  length batch <> 3%nat ->
  exists msg : string,
    evaluate_lip_const_gen model eps seed w
    = (Raise (ValueError msg), set_generator rest w).
Proof.
  intros Hgen Harity.
  unfold evaluate_lip_const_gen, generator_send, mbind, M_bind.
  rewrite Hgen.
  destruct batch as [|a [|b [|c [|d batch]]]]; simpl in Harity;
    try (eexists; reflexivity).
  contradiction.
Qed.

(** X17: On an exhausted generator the generator form raises [StopIteration]
    and the world is left as it was. *)
Theorem evaluate_lip_const_gen_exhausted
    (model : tensor -> tensor) (eps : R) (seed : option Z) (w : world) :
  generator w = [] ->
  evaluate_lip_const_gen model eps seed w = (Raise StopIteration, w).
Proof.
  intros Hgen.
  unfold evaluate_lip_const_gen, generator_send, mbind, M_bind.
  rewrite Hgen. reflexivity.
Qed.

(** X18: Two calls of the generator form in a row consume the first two
    batches in order and make two successive random draws: the model is
    run on the first [x] and on that [x] plus the first draw, then on the
    second [x] and on that [x] plus the second draw, each draw being made
    for the shape of its [x] with [minval = eps * 0.25], [maxval = eps]
    and the given seed; the second call is the direct form on the second
    [x] in the world the first call left. *)
Theorem evaluate_lip_const_gen_twice
    (model : tensor -> tensor) (eps : R) (seed : option Z) (w : world)
    (x1 y1 sw1 x2 y2 sw2 : tensor) (rest : list (list tensor)) :
  generator w = [x1; y1; sw1] :: [x2; y2; sw2] :: rest ->
  exists (x1_var x2_var : tensor) (w1 w2 : world),
    x1_var = tensor_add x1
               (K_random_uniform (rng_draws w) (shape x1) (eps * 0.25) eps seed)
    /\ x2_var = tensor_add x2
                  (K_random_uniform (S (rng_draws w)) (shape x2) (eps * 0.25)
                     eps seed)
    /\ w1 = snd (evaluate_lip_const_gen model eps seed w)
    /\ w2 = snd (evaluate_lip_const_gen model eps seed w1)
    /\ generator w1 = [x2; y2; sw2] :: rest
    /\ evaluate_lip_const_gen model eps seed w1
       = evaluate_lip_const model x2 eps seed (set_generator rest w1)
    /\ generator w2 = rest
    /\ rng_draws w2 = S (S (rng_draws w))
    /\ predict_calls w2 = x2_var :: x2 :: x1_var :: x1 :: predict_calls w.
Proof.
  intros Hgen.
  assert (Hrun : forall w' x y sw rest',
             generator w' = [x; y; sw] :: rest' ->
             evaluate_lip_const_gen model eps seed w'
             = evaluate_lip_const model x eps seed (set_generator rest' w')).
  { intros w' x y sw rest' Hw'.
    unfold evaluate_lip_const_gen, generator_send, mbind, M_bind.
    rewrite Hw'. reflexivity. }
  assert (Hgen1 : generator (snd (evaluate_lip_const_gen model eps seed w))
                  = [x2; y2; sw2] :: rest).
  { rewrite (Hrun w x1 y1 sw1 _ Hgen), evaluate_lip_const_run. reflexivity. }
  eexists. eexists. eexists. eexists.
  split; [reflexivity|]. split; [reflexivity|]. split; [reflexivity|].
  split; [reflexivity|]. split; [exact Hgen1|].
  split; [apply (Hrun _ x2 y2 sw2 rest Hgen1)|].
  rewrite (Hrun _ x2 y2 sw2 rest Hgen1), evaluate_lip_const_run. cbv zeta.
  rewrite (Hrun w x1 y1 sw1 _ Hgen), evaluate_lip_const_run. cbv zeta. simpl.
  split; [reflexivity|]. split; reflexivity.
Qed.

End LipschitzMore.

Lemma evaluate_lip_const_identity_witness :
  fst (@evaluate_lip_const lowest_backend (fun a => a) [[1; 2]] 1 None
         (fresh_world []))
  = Ok (Some 1).
Proof.
  apply (@evaluate_lip_const_identity lowest_backend).
  - lra.
  - discriminate.
  - constructor; [discriminate | constructor].
Defined.

Lemma evaluate_lip_const_scaling_witness :
  fst (@evaluate_lip_const lowest_backend (scale_model (-3)) [[1; 2]] 1 None
         (fresh_world []))
  = Ok (Some (Rabs (-3))).
Proof.
  apply (@evaluate_lip_const_scaling lowest_backend).
  - lra.
  - discriminate.
  - constructor; [discriminate | constructor].
Defined.

Lemma evaluate_lip_const_below_lipschitz_witness :
  exists v : R,
    fst (@evaluate_lip_const lowest_backend (fun a => a) [[1; 2]] 1 None
           (fresh_world []))
    = Ok (Some v)
    /\ 0 <= v <= 1.
Proof.
  apply (@evaluate_lip_const_below_lipschitz lowest_backend (fun a => a) 1).
  - lra.
  - discriminate.
  - constructor; [discriminate | constructor].
  - reflexivity.
  - lra.
  - intros a b i. lra.
Defined.

Lemma evaluate_lip_const_empty_sample_witness :
  fst (@evaluate_lip_const lowest_backend (fun a => a) [[]] 1 None
         (fresh_world []))
  = Ok None.
Proof.
  apply (@evaluate_lip_const_empty_sample lowest_backend (fun a => a) [[]] 1
           None (fresh_world []) 0%nat).
  - reflexivity.
  - reflexivity.
Defined.

Lemma evaluate_lip_const_gen_wrong_arity_witness :
  exists msg : string,
    @evaluate_lip_const_gen lowest_backend (fun a => a) 1 None
      (fresh_world [[ [[1]]; [[0]] ]])
    = (Raise (ValueError msg), set_generator [] (fresh_world [[ [[1]]; [[0]] ]])).
Proof.
  apply (@evaluate_lip_const_gen_wrong_arity lowest_backend (fun a => a) 1 None
           (fresh_world [[ [[1]]; [[0]] ]]) [ [[1]]; [[0]] ] [] eq_refl).
  simpl. lia.
Defined.

Lemma evaluate_lip_const_gen_exhausted_witness :
  @evaluate_lip_const_gen lowest_backend (fun a => a) 1 None (fresh_world [])
  = (Raise StopIteration, fresh_world []).
Proof.
  apply (@evaluate_lip_const_gen_exhausted lowest_backend). reflexivity.
Defined.

Lemma evaluate_lip_const_gen_twice_witness :
  predict_calls
    (snd (@evaluate_lip_const_gen lowest_backend square_model 1 None
            (snd (@evaluate_lip_const_gen lowest_backend square_model 1 None
                    (fresh_world [ [ [[1; 2]]; [[0]]; [[5]] ];
                                   [ [[3; 4]]; [[1]]; [[5]] ] ])))))
  = [ [[3 + 1 * 0.25; 4 + 1 * 0.25]]; [[3; 4]];
      [[1 + 1 * 0.25; 2 + 1 * 0.25]]; [[1; 2]] ].
Proof.
  destruct (@evaluate_lip_const_gen_twice lowest_backend square_model 1 None
              (fresh_world [ [ [[1; 2]]; [[0]]; [[5]] ];
                             [ [[3; 4]]; [[1]]; [[5]] ] ])
              [[1; 2]] [[0]] [[5]] [[3; 4]] [[1]] [[5]] [] eq_refl)
    as (x1_var & x2_var & w1 & w2 & Hx1 & Hx2 & Hw1 & Hw2 & _ & _ & _ & _
        & Hcalls).
  subst w2 w1. rewrite Hcalls, Hx1, Hx2. reflexivity.
Defined.
